(** * Trax learning-rate schedules ([trax/supervised/lr_schedules.py])

    A shallow embedding of the schedule constructors of the module and of
    the closures they return.

    - Python strings are [string]s of ASCII characters.
    - Numbers go through two interfaces, [PyNum] (Python's own arithmetic)
      and [Backend] (the [jnp] array backend and the remaining operators),
      with two instances: the real numbers (exact arithmetic) and IEEE-754
      binary64 with the final cast to binary32.
    - The step handed to a schedule is a value of the array backend, so
      the operations of [learning_rate], all of which involve the step or
      a result of [jnp], are total: an exceptional operation (division by
      zero, overflow) yields a value of the instance, never an exception.
      The constant and the decrease rate of [EvalAdjustingSchedule] are
      Python floats: dividing by a zero rate raises
      [ZeroDivisionError].
    - Python list objects live in a heap addressed by references, so that
      aliasing between the history and the local variable [metrics] of
      [EvalAdjustingSchedule] is visible.
    - Code runs in the monad [Py]: a state monad over the heap, with
      exceptions. *)

From Stdlib Require Import ZArith Ascii String Reals Lra Lia.
From Stdlib Require Import Floats.SpecFloat.
From stdpp Require Import gmap strings list.

Local Open Scope Z_scope.

(** * Part I: the program *)

(** ** Python string operations used by the module *)

Module PyStr.

(** [str.isspace] on the ASCII range: tab, line feed, vertical tab, form
    feed, carriage return, the four separators 0x1c..0x1f and space. *)
Definition is_space (c : ascii) : bool :=
  let n := N_of_ascii c in
  ((9 <=? n)%N && (n <=? 13)%N) || ((28 <=? n)%N && (n <=? 32)%N).

Fixpoint lstrip (s : string) : string :=
  match s with
  | EmptyString => EmptyString
  | String c s' => if is_space c then lstrip s' else s
  end.

Fixpoint rstrip (s : string) : string :=
  match s with
  | EmptyString => EmptyString
  | String c s' =>
      match rstrip s' with
      | EmptyString => if is_space c then EmptyString else String c EmptyString
      | t => String c t
      end
  end.

(** [s.strip()] *)
Definition strip (s : string) : string := rstrip (lstrip s).

(** [s.split(sep)] for a one-character separator: every occurrence of
    [sep] ends a field, so the result is never empty and may contain
    empty fields. *)
Fixpoint split (sep : ascii) (s : string) : list string :=
  match s with
  | EmptyString => [EmptyString]
  | String c s' =>
      if Ascii.eqb c sep then EmptyString :: split sep s'
      else match split sep s' with
           | [] => [String c EmptyString]
           | t :: ts => String c t :: ts
           end
  end.

End PyStr.

(** ** Numbers *)

(** Python's arithmetic on numbers: integer constants, [float(x)], the
    operators [+ - * /], the comparison [<] and the test [x == 0].  The
    quotient [py_truediv] is total (the IEEE-754 quotient in binary64). *)
Class PyNum (num : Type) := {
  of_Z : Z -> num;
  py_float : num -> num;
  py_add : num -> num -> num;
  py_sub : num -> num -> num;
  py_mul : num -> num -> num;
  py_truediv : num -> num -> num;
  py_lt : num -> num -> bool;
  py_is_zero : num -> bool;
}.

(** The operators [// ** %] and what the module takes from [jnp]. *)
Class Backend (num : Type) `{!PyNum num} := {
  py_floordiv : num -> num -> num;
  py_pow : num -> num -> num;
  py_mod : num -> num -> num;
  jnp_minimum : num -> num -> num;
  jnp_maximum : num -> num -> num;
  jnp_sqrt : num -> num;
  jnp_cos : num -> num;
  jnp_pi : num;
  jnp_asarray_float32 : num -> num;
}.

(** The decimal literal [m]e-[k], e.g. [0.5] is [dec 5 1].  Both operands
    are exact in either instance, so the quotient is the literal's value
    (correctly rounded in binary64). *)
Definition dec {num : Type} `{!PyNum num} (m : Z) (k : nat) : num :=
  py_truediv (of_Z m) (of_Z (10 ^ Z.of_nat k)).

(** ** Exceptions, heap and the [Py] monad *)

Inductive exn :=
  | ValueError (msg : string)
  | ZeroDivisionError       (* float division by zero *)
  | IndexError              (* pop from an empty list *)
  | DanglingReference       (* no list object at this reference *)
  | OutOfFuel.              (* the loop bound of the model was too small *)

Inductive result (A : Type) :=
  | Ok (a : A)
  | Raise (e : exn).
Arguments Ok {A} a.
Arguments Raise {A} e.

Definition loc := positive.

(** A point of a metric's time series: (step, value). *)
Abbreviation point num := (Z * num)%type.

(** The heap holds the Python list objects. *)
Abbreviation heap num := (gmap loc (list (point num))).

(** The default formula of [MultifactorSchedule]. *)
Definition default_factors : string := "constant * linear_warmup * rsqrt_decay".

Section Program.
Context {num : Type} `{!PyNum num}.

Definition Py (A : Type) : Type := heap num -> result A * heap num.

Definition raise {A} (e : exn) : Py A := fun σ => (Raise e, σ).

#[global] Instance Py_ret : MRet Py := fun A a σ => (Ok a, σ).

#[global] Instance Py_bind : MBind Py := fun A B k m σ =>
  match m σ with
  | (Ok a, σ') => k a σ'
  | (Raise e, σ') => (Raise e, σ')
  end.

(** [x / y] on Python floats. *)
Definition py_float_div (x y : num) : Py num :=
  if py_is_zero y then raise ZeroDivisionError else mret (py_truediv x y).

(** *** Python list objects *)

(** [len(l)] *)
Definition py_len (l : loc) : Py Z := fun σ =>
  match σ !! l with
  | Some xs => (Ok (Z.of_nat (length xs)), σ)
  | None => (Raise DanglingReference, σ)
  end.

(** [l.pop()]: removes the last element of the list object, in place, and
    returns it. *)
Definition py_pop (l : loc) : Py (point num) := fun σ =>
  match σ !! l with
  | Some xs =>
      match last xs with
      | Some x => (Ok x, <[l := removelast xs]> σ)
      | None => (Raise IndexError, σ)
      end
  | None => (Raise DanglingReference, σ)
  end.

(** *** The history *)

(** Modelled from the spec: [trax.history.History] is not among the
    sources.  The spec describes an externally owned time series,
    queryable by mode and metric name, whose query returns the ordered
    sequence of (step, value) pairs, oldest first, an empty sequence being
    valid; the schedule code only reads it and walks a local copy.  The
    history is therefore a table from (mode, metric) to the list object
    that holds the series, and [get] hands out a new list object with the
    same elements. *)
Record History := { _values : gmap (string * string) loc }.

(** The series stored under (mode, metric) in heap [σ]. *)
Definition History_series (history : History) (mode metric : string)
    (σ : heap num) : list (point num) :=
  match _values history !! (mode, metric) with
  | Some l => default [] (σ !! l)
  | None => []
  end.

(** Modelled from the spec: [History.get(mode, metric)], see [History]. *)
Definition History_get (history : History) (mode metric : string) : Py loc :=
  fun σ =>
    let l := fresh (dom σ) in
    (Ok l, <[l := History_series history mode metric σ]> σ).

(** *** MultifactorSchedule *)

Context `{!Backend num}.

(** Schedules: closures from the step to the dict that holds the
    learning rate. *)
Definition Schedule : Type := num -> Py (gmap string num).

(** Arguments of [MultifactorSchedule] after [history]. *)
Record MultifactorArgs := {
  factors : string;
  constant : num;
  warmup_steps : num;
  decay_factor : num;
  steps_per_decay : num;
  steps_per_cycle : num;
}.

(** The defaults of the signature. *)
Definition MultifactorDefaults : MultifactorArgs := {|
  factors := default_factors;
  constant := dec 1 1;
  warmup_steps := of_Z 400;
  decay_factor := dec 5 1;
  steps_per_decay := of_Z 20000;
  steps_per_cycle := of_Z 100000;
|}.

(** The arguments of the call [MultifactorSchedule(history, constant=c)]
    when [a] holds the defaults. *)
Definition with_constant (c : num) (a : MultifactorArgs) : MultifactorArgs := {|
  factors := factors a;
  constant := c;
  warmup_steps := warmup_steps a;
  decay_factor := decay_factor a;
  steps_per_decay := steps_per_decay a;
  steps_per_cycle := steps_per_cycle a;
|}.

(** The list comprehension of line 97: split [factors] at every star,
    strip each field. *)
Definition parse_factors (fs : string) : list string :=
  PyStr.strip <$> PyStr.split "*"%char fs.

(** One turn of the loop [for name in factors], on the accumulator
    (the variable [ret] of the source).  The step is a value of the array
    backend, so [/] is the total quotient here. *)
Definition apply_factor (a : MultifactorArgs) (step : num) (name : string)
    (acc : num) : Py num :=
  if decide (name = "constant") then
    mret (py_mul acc (constant a))
  else if decide (name = "linear_warmup") then
    mret (py_mul acc (jnp_minimum (of_Z 1) (py_truediv step (warmup_steps a))))
  else if decide (name = "rsqrt_decay") then
    mret (py_truediv acc (jnp_sqrt (jnp_maximum step (warmup_steps a))))
  else if decide (name = "rsqrt_normalized_decay") then
    let acc := py_mul acc (jnp_sqrt (warmup_steps a)) in
    mret (py_truediv acc (jnp_sqrt (jnp_maximum step (warmup_steps a))))
  else if decide (name = "decay_every") then
    mret (py_mul acc (py_pow (decay_factor a)
                             (py_floordiv step (steps_per_decay a))))
  else if decide (name = "cosine_decay") then
    let progress :=
      jnp_maximum (of_Z 0)
        (py_truediv (py_sub step (warmup_steps a))
                    (py_float (steps_per_cycle a))) in
    mret (py_mul acc
            (py_mul (dec 5 1)
               (py_add (of_Z 1)
                  (jnp_cos (py_mul jnp_pi (py_mod progress (of_Z 1)))))))
  else
    raise (ValueError ("Unknown factor " +:+ name +:+ ".")).

Fixpoint for_factors (a : MultifactorArgs) (step : num)
    (names : list string) (acc : num) : Py num :=
  match names with
  | [] => mret acc
  | name :: names' =>
      acc' ← apply_factor a step name acc;
      for_factors a step names' acc'
  end.

(** The closure [learning_rate] over the parsed factors [names] and the
    arguments. *)
Definition learning_rate (names : list string) (a : MultifactorArgs)
    : Schedule := fun step =>
  acc ← for_factors a step names (of_Z 1);
  let acc := jnp_asarray_float32 acc in
  mret {[ "learning_rate" := acc ]}.

Definition MultifactorSchedule (history : option History)
    (a : MultifactorArgs) : Py Schedule :=
  let names := parse_factors (factors a) in
  mret (learning_rate names a).

(** *** EvalAdjustingSchedule *)

(** Arguments of [EvalAdjustingSchedule] after [history]; [ea_constant] is
    its argument [constant]. *)
Record EvalAdjustingArgs := {
  ea_constant : num;
  steps_to_decrease : Z;
  improvement_margin : num;
  decrease_rate : num;
  history_mode : string;
  metric : string;
}.

Definition EvalAdjustingDefaults : EvalAdjustingArgs := {|
  ea_constant := dec 1 1;
  steps_to_decrease := 20;
  improvement_margin := dec 1 3;
  decrease_rate := dec 15 1;
  history_mode := "eval";
  metric := "metrics/accuracy";
|}.

(** The variables the [while] loop updates. *)
Record walk_state := {
  cur : num;
  steps_without_improvement : Z;
  adjusted : num;
}.

(** The body of the [while] loop after [prev = metrics.pop()[1]]. *)
Definition loop_body (a : EvalAdjustingArgs) (prev : num) (st : walk_state)
    : Py walk_state :=
  let st :=
    if py_lt (cur st) (py_mul prev (py_add (of_Z 1) (improvement_margin a)))
    then {| cur := cur st;
            steps_without_improvement := steps_without_improvement st + 1;
            adjusted := adjusted st |}
    else {| cur := prev;
            steps_without_improvement := 0;
            adjusted := adjusted st |} in
  if steps_to_decrease a <=? steps_without_improvement st
  then
    adjusted' ← py_float_div (adjusted st) (decrease_rate a);
    mret {| cur := prev;
            steps_without_improvement := 0;
            adjusted := adjusted' |}
  else mret st.

(** [while len(metrics) > 1: ...], bounded by [fuel] turns. *)
Fixpoint while_loop (fuel : nat) (a : EvalAdjustingArgs) (metrics : loc)
    (st : walk_state) : Py walk_state :=
  match fuel with
  | O => raise OutOfFuel
  | S fuel' =>
      n ← py_len metrics;
      if 1 <? n then
        p ← py_pop metrics;
        st' ← loop_body a (snd p) st;
        while_loop fuel' a metrics st'
      else mret st
  end.

(** The loop pops once per turn, so the length on entry bounds its
    turns. *)
Definition EvalAdjustingSchedule (history : History) (a : EvalAdjustingArgs)
    : Py Schedule :=
  metrics ← History_get history (history_mode a) (metric a);
  let adjusted0 := ea_constant a in
  n ← py_len metrics;
  if n <? 2 then
    MultifactorSchedule (Some history) (with_constant adjusted0 MultifactorDefaults)
  else
    p ← py_pop metrics;
    st ← while_loop (Z.to_nat n) a metrics
           {| cur := snd p;
              steps_without_improvement := 0;
              adjusted := adjusted0 |};
    MultifactorSchedule (Some history)
      (with_constant (adjusted st) MultifactorDefaults).

(** *** The compatibility layer *)

(** [_from_lr_function]: [lr_fn] applied to the arguments is a function of
    the step. *)
Definition _from_lr_function (lr_fn : list num -> num -> num)
    (args : list num) : Schedule := fun step =>
  mret {[ "learning_rate" := lr_fn args step ]}.

(** [trax.supervised.lr_functions] is not among the sources: its three
    functions are parameters. *)
Class LrFunctions := {
  lr_functions_constant : list num -> num -> num;
  lr_functions_warmup : list num -> num -> num;
  lr_functions_warmup_and_rsqrt_decay : list num -> num -> num;
}.
Context `{!LrFunctions}.

(** The schedule constructor [constant] of the source; the name
    [constant] is taken by the argument of [MultifactorSchedule]. *)
Definition constant_schedule (history : option History) (value : num)
    : Py Schedule :=
  mret (_from_lr_function lr_functions_constant [value]).

Definition warmup (history : option History) (n_warmup_steps max_value : num)
    : Py Schedule :=
  mret (_from_lr_function lr_functions_warmup [n_warmup_steps; max_value]).

Definition warmup_and_rsqrt_decay (history : option History)
    (n_warmup_steps max_value : num) : Py Schedule :=
  mret (_from_lr_function lr_functions_warmup_and_rsqrt_decay
          [n_warmup_steps; max_value]).

End Program.

(** ** Instance: real numbers (exact arithmetic) *)

Module RealModel.

#[global] Instance Rlt_decision (x y : R) : Decision (x < y)%R := Rlt_dec x y.

#[global] Instance Req_decision : EqDecision R := Req_dec_T.

(** Floor of a real number. *)
Definition floor (x : R) : Z := Int_part x.

#[global] Instance pynum : PyNum R := {|
  of_Z := IZR;
  py_float := fun x => x;
  py_add := Rplus;
  py_sub := Rminus;
  py_mul := Rmult;
  py_truediv := Rdiv;
  py_lt := fun x y => bool_decide (x < y)%R;
  py_is_zero := fun x => bool_decide (x = 0%R);
|}.

(** [x ** y]: the integer power when [y] is an integer, the real power
    otherwise. *)
Definition power (x y : R) : R :=
  if Req_dec_T (IZR (floor y)) y then powerRZ x (floor y) else Rpower x y.

#[global] Instance backend : Backend R := {|
  py_floordiv := fun x y => IZR (floor (x / y));
  py_pow := power;
  py_mod := fun x y => (x - y * IZR (floor (x / y)))%R;
  jnp_minimum := Rmin;
  jnp_maximum := Rmax;
  jnp_sqrt := sqrt;
  jnp_cos := cos;
  jnp_pi := PI;
  jnp_asarray_float32 := fun x => x;
|}.

End RealModel.

(** ** Instance: IEEE-754 binary64, cast to binary32 on output *)

Module Binary64.

Definition prec : Z := 53.
Definition emax : Z := 1024.

(** Conversion of an integer, rounded to nearest even. *)
Definition of_int (z : Z) : spec_float := binary_normalize prec emax z 0 false.

#[global] Instance pynum : PyNum spec_float := {|
  of_Z := of_int;
  py_float := fun x => x;
  py_add := SFadd prec emax;
  py_sub := SFsub prec emax;
  py_mul := SFmul prec emax;
  py_truediv := SFdiv prec emax;
  py_lt := SFltb;
  py_is_zero := fun x => match x with S754_zero _ => true | _ => false end;
|}.

(** Minimum and maximum that propagate not-a-number. *)
Definition minimum (x y : spec_float) : spec_float :=
  match SFcompare x y with
  | None => S754_nan
  | Some Gt => y
  | Some _ => x
  end.

Definition maximum (x y : spec_float) : spec_float :=
  match SFcompare x y with
  | None => S754_nan
  | Some Lt => y
  | Some _ => x
  end.

(** The binary64 number nearest to pi, 0x400921FB54442D18. *)
Definition pi : spec_float := S754_finite false 7074237752028440 (-51).

(** Rounding to binary32 (24 bits of precision, exponents below 128). *)
Definition to_float32 (x : spec_float) : spec_float :=
  match x with
  | S754_finite s m e => binary_normalize 24 128 (cond_Zopp s (Zpos m)) e s
  | _ => x
  end.

(** Floor division, power, remainder and cosine are the array backend's:
    IEEE-754 does not fix the results of the power and of the cosine, and
    none of the four is needed at an input evaluated below.  The instance
    takes them from a record. *)
Record Elementary := {
  cos64 : spec_float -> spec_float;
  pow64 : spec_float -> spec_float -> spec_float;
  floordiv64 : spec_float -> spec_float -> spec_float;
  mod64 : spec_float -> spec_float -> spec_float;
}.

Definition backend (E : Elementary) : Backend spec_float := {|
  py_floordiv := floordiv64 E;
  py_pow := pow64 E;
  py_mod := mod64 E;
  jnp_minimum := minimum;
  jnp_maximum := maximum;
  jnp_sqrt := SFsqrt prec emax;
  jnp_cos := cos64 E;
  jnp_pi := pi;
  jnp_asarray_float32 := to_float32;
|}.

(** The four functions left without a model: not-a-number everywhere.
    It closes statements about inputs at which none of them is called. *)
Definition unmodelled : Elementary := {|
  cos64 := fun _ => S754_nan;
  pow64 := fun _ _ => S754_nan;
  floordiv64 := fun _ _ => S754_nan;
  mod64 := fun _ _ => S754_nan;
|}.

Definition is_finite (x : spec_float) : bool :=
  match x with
  | S754_zero _ | S754_finite _ _ _ => true
  | S754_infinity _ | S754_nan => false
  end.

End Binary64.

(** * Part II: vocabulary of the specification *)

(** The factor names the module knows. *)
Definition known_factors : list string :=
  ["constant"; "linear_warmup"; "rsqrt_decay"; "rsqrt_normalized_decay";
   "decay_every"; "cosine_decay"].

(** The error raised on an unknown factor name. *)
Definition unknown_factor (name : string) : exn :=
  ValueError ("Unknown factor " +:+ name +:+ ".").

(** The first unknown name of a list, if any. *)
Fixpoint first_unknown (names : list string) : option string :=
  match names with
  | [] => None
  | name :: names' =>
      if decide (name ∈ known_factors) then first_unknown names'
      else Some name
  end.

(** The factor names of the default formula. *)
Definition default_names : list string := parse_factors default_factors.

(** A history with one series, stored at reference 1. *)
Definition one_series (mode m : string) : History :=
  {| _values := {[ (mode, m) := 1%positive ]} |}.

(** The heap in which that series is [xs]. *)
Definition one_series_heap {num : Type} (xs : list (point num)) : heap num :=
  {[ 1%positive := xs ]}.

Section Vocabulary.
Context {num : Type} `{!PyNum num} `{!Backend num}.
Implicit Types (σ : heap num).
Implicit Types (ea : EvalAdjustingArgs (num := num)).

(** [m] returns [r] and leaves every heap as it is. *)
Definition heap_free {A} (m : Py A) (r : result A) : Prop :=
  ∀ σ, m σ = (r, σ).

(** The outcome of a call of [sched] is fixed: it is the same in every
    heap, and the call leaves the heap as it is. *)
Definition deterministic (sched : Schedule) : Prop :=
  ∀ step, ∃ r, ∀ σ, sched step σ = (r, σ).

(** Every list object the history refers to exists. *)
Definition history_allocated (history : History) σ : Prop :=
  ∀ k l, _values history !! k = Some l → is_Some (σ !! l).

(** One turn of the loop when the division goes through. *)
Definition loop_step ea (prev : num) (st : walk_state) : walk_state :=
  let st :=
    if py_lt (cur st) (py_mul prev (py_add (of_Z 1) (improvement_margin ea)))
    then {| cur := cur st;
            steps_without_improvement := steps_without_improvement st + 1;
            adjusted := adjusted st |}
    else {| cur := prev;
            steps_without_improvement := 0;
            adjusted := adjusted st |} in
  if steps_to_decrease ea <=? steps_without_improvement st
  then {| cur := prev;
          steps_without_improvement := 0;
          adjusted := py_truediv (adjusted st) (decrease_rate ea) |}
  else st.

(** Whether the turn decreases the constant. *)
Definition decreases_at ea (prev : num) (st : walk_state) : bool :=
  steps_to_decrease ea <=?
    (if py_lt (cur st) (py_mul prev (py_add (of_Z 1) (improvement_margin ea)))
     then steps_without_improvement st + 1
     else 0).

(** The loop variables after the loop has seen the values [prevs], in the
    order in which they are popped. *)
Definition walk ea (st : walk_state) (prevs : list num) : walk_state :=
  fold_left (λ st prev, loop_step ea prev st) prevs st.

(** The number of decreases along that walk. *)
Fixpoint walk_decreases ea (st : walk_state) (prevs : list num) : nat :=
  match prevs with
  | [] => 0
  | prev :: prevs' =>
      (if decreases_at ea prev st then 1 else 0)
      + walk_decreases ea (loop_step ea prev st) prevs'
  end.

(** The state in which the loop is entered. *)
Definition walk_init ea (newest : num) : walk_state :=
  {| cur := newest; steps_without_improvement := 0;
     adjusted := ea_constant ea |}.

(** The values the walk sees, in the order in which it sees them: all but
    the oldest and the newest, newest first. *)
Definition seen (xs : list (point num)) : list num :=
  match rev xs with
  | _newest :: older => rev (snd <$> tail (rev older))
  | [] => []
  end.

(** The value the walk starts from, if there are two points or more. *)
Definition newest_value (xs : list (point num)) : option num :=
  if (length xs <? 2)%nat then None else snd <$> last xs.

(** The number of decreases over the series [xs]. *)
Definition decreases_of ea (xs : list (point num)) : nat :=
  match newest_value xs with
  | Some v => walk_decreases ea (walk_init ea v) (seen xs)
  | None => 0
  end.

(** The adjusted constant as a function of the series: the constant
    itself below two points, else the result of walking from the newest
    value over all values but the oldest. *)
Definition adjusted_of ea (xs : list (point num)) : num :=
  match newest_value xs with
  | Some v => adjusted (walk ea (walk_init ea v) (seen xs))
  | None => ea_constant ea
  end.

(** The division fails when the rate is zero and a decrease is due. *)
Definition division_fails ea (xs : list (point num)) : bool :=
  py_is_zero (decrease_rate ea) && (0 <? decreases_of ea xs)%nat.

(** The outcome of the walk that starts in [st] and sees [prevs]. *)
Definition walk_outcome ea (st : walk_state) (prevs : list num)
    : result walk_state :=
  if py_is_zero (decrease_rate ea) && (0 <? walk_decreases ea st prevs)%nat
  then Raise ZeroDivisionError
  else Ok (walk ea st prevs).

(** The outcome of lines 156 to 173 on the series [xs]. *)
Definition adjusted_outcome ea (xs : list (point num)) : result num :=
  if division_fails ea xs then Raise ZeroDivisionError
  else Ok (adjusted_of ea xs).

(** The outcome of [EvalAdjustingSchedule] on the series [xs]. *)
Definition schedule_outcome ea (xs : list (point num)) : result Schedule :=
  if division_fails ea xs then Raise ZeroDivisionError
  else Ok (learning_rate default_names
             (with_constant (adjusted_of ea xs) MultifactorDefaults)).

(** What is left in the list object after a walk that returns. *)
Definition left_over (xs : list (point num)) : list (point num) :=
  if (length xs <? 2)%nat then xs else take 1 xs.

(** Lines 156 to 173 of [EvalAdjustingSchedule]: the constant that either
    [return] statement hands to [MultifactorSchedule], computed on the list
    object [metrics]. *)
Definition adjusted_constant ea (metrics : loc) : Py num :=
  let adjusted0 := ea_constant ea in
  n ← py_len metrics;
  if n <? 2 then mret adjusted0
  else
    p ← py_pop metrics;
    st ← while_loop (Z.to_nat n) ea metrics
           {| cur := snd p;
              steps_without_improvement := 0;
              adjusted := adjusted0 |};
    mret (adjusted st).

(** [k] successive divisions by [decrease_rate]. *)
Definition decreased ea (k : nat) (c : num) : num :=
  Nat.iter k (λ x, py_truediv x (decrease_rate ea)) c.

End Vocabulary.

(** ** Inputs in exact arithmetic *)

Section RealInputs.
Import RealModel.
Local Open Scope R_scope.

(** [x] is approximately [y]: they agree to six decimal places. *)
Definition approx (x y : R) : Prop := Rabs (x - y) <= 1 / 1000000.

(** The factor [cosine_decay] with [steps_per_cycle] 100000 and
    [warmup_steps] 0, other arguments at their defaults. *)
Definition cosine_args : MultifactorArgs (num := R) := {|
  factors := "cosine_decay";
  constant := constant MultifactorDefaults;
  warmup_steps := 0;
  decay_factor := decay_factor MultifactorDefaults;
  steps_per_decay := steps_per_decay MultifactorDefaults;
  steps_per_cycle := 100000;
|}.

(** The multiplier of [cosine_decay] as the module computes it:
    [progress mod 1] is [progress - 1 * floor (progress / 1)]. *)
Definition cosine_multiplier (a : MultifactorArgs (num := R)) (step : R) : R :=
  let progress := Rmax 0 ((step - warmup_steps a) / steps_per_cycle a) in
  1 / 2 * (1 + cos (PI * (progress - 1 * IZR (floor (progress / 1))))).

(** The factor [linear_warmup] alone, other arguments at their defaults. *)
Definition linear_warmup_args (w : R) : MultifactorArgs (num := R) := {|
  factors := "linear_warmup";
  constant := constant MultifactorDefaults;
  warmup_steps := w;
  decay_factor := decay_factor MultifactorDefaults;
  steps_per_decay := steps_per_decay MultifactorDefaults;
  steps_per_cycle := steps_per_cycle MultifactorDefaults;
|}.

(** A formula with an unknown factor. *)
Definition bogus_args : MultifactorArgs (num := R) := {|
  factors := "constant * bogus_factor";
  constant := constant MultifactorDefaults;
  warmup_steps := warmup_steps MultifactorDefaults;
  decay_factor := decay_factor MultifactorDefaults;
  steps_per_decay := steps_per_decay MultifactorDefaults;
  steps_per_cycle := steps_per_cycle MultifactorDefaults;
|}.

(** Series of one point and of two points. *)
Definition one_point : list (point R) := [(100%Z, 1 / 2)].
Definition two_points : list (point R) := [(100%Z, 1 / 2); (200%Z, 3 / 5)].

(** Constant 1 and decrease rate 2. *)
Definition halving_args : EvalAdjustingArgs (num := R) := {|
  ea_constant := 1;
  steps_to_decrease := 1%Z;
  improvement_margin := improvement_margin EvalAdjustingDefaults;
  decrease_rate := 2;
  history_mode := "eval";
  metric := "metrics/accuracy";
|}.

(** Stand-ins for [lr_functions], to call the wrappers. *)
Definition zero_lr_functions : LrFunctions (num := R) := {|
  lr_functions_constant := λ _ _, 0;
  lr_functions_warmup := λ _ _, 0;
  lr_functions_warmup_and_rsqrt_decay := λ _ _, 0;
|}.

End RealInputs.

(** ** Inputs in binary64 *)

Section FloatInputs.
Import Binary64.

(** 0.5 and 1.0 in binary64. *)
Definition half : spec_float := dec 5 1.
Definition one : spec_float := of_Z 1.

(** The arguments of the reference trace: constant 1.0, two stalled
    steps before a decrease, decrease rate 2.0, the default margin. *)
Definition stalled_args (mode m : string) : EvalAdjustingArgs (num := spec_float) := {|
  ea_constant := of_Z 1;
  steps_to_decrease := 2;
  improvement_margin := improvement_margin EvalAdjustingDefaults;
  decrease_rate := of_Z 2;
  history_mode := mode;
  metric := m;
|}.

Definition four_stalled : heap spec_float :=
  one_series_heap [(100, half); (200, half); (300, half); (400, half)].

(** The smallest positive binary64 number, about 4.9e-324. *)
Definition tiny : spec_float := S754_finite false 1 (-1074).

Definition underflow_args : EvalAdjustingArgs (num := spec_float) := {|
  ea_constant := tiny;
  steps_to_decrease := 1;
  improvement_margin := improvement_margin EvalAdjustingDefaults;
  decrease_rate := of_Z 2;
  history_mode := "eval";
  metric := "metrics/accuracy";
|}.

Definition three_stalled : heap spec_float :=
  one_series_heap [(100, half); (200, half); (300, half)].

(** Constant 1.0 and decrease rate 0.0. *)
Definition zero_rate_args : EvalAdjustingArgs (num := spec_float) := {|
  ea_constant := of_Z 1;
  steps_to_decrease := 1;
  improvement_margin := improvement_margin EvalAdjustingDefaults;
  decrease_rate := of_Z 0;
  history_mode := "eval";
  metric := "metrics/accuracy";
|}.

(** The formula ["constant"] with constant 1e39 and the other arguments
    at their defaults. *)
Definition overflow_args : MultifactorArgs (num := spec_float) := {|
  factors := "constant";
  constant := of_Z (10 ^ 39);
  warmup_steps := warmup_steps MultifactorDefaults;
  decay_factor := decay_factor MultifactorDefaults;
  steps_per_decay := steps_per_decay MultifactorDefaults;
  steps_per_cycle := steps_per_cycle MultifactorDefaults;
|}.

(** The parameters that callers are expected to keep positive. *)
Definition valid_positive (a : MultifactorArgs (num := spec_float)) : Prop :=
  SFltb (of_Z 0) (warmup_steps a) = true ∧
  SFltb (of_Z 0) (steps_per_decay a) = true ∧
  SFltb (of_Z 0) (steps_per_cycle a) = true.

(** The factor [linear_warmup] alone with [warmup_steps] 400. *)
Definition linear_warmup_400 : MultifactorArgs (num := spec_float) := {|
  factors := "linear_warmup";
  constant := constant MultifactorDefaults;
  warmup_steps := of_Z 400;
  decay_factor := decay_factor MultifactorDefaults;
  steps_per_decay := steps_per_decay MultifactorDefaults;
  steps_per_cycle := steps_per_cycle MultifactorDefaults;
|}.

End FloatInputs.

(** ** Vocabulary of the further properties *)

(** The number of occurrences of the character [c] in [s]. *)
Fixpoint count_char (c : ascii) (s : string) : nat :=
  match s with
  | EmptyString => 0
  | String c' s' => (if Ascii.eqb c' c then 1 else 0) + count_char c s'
  end.

(** [sep.join(ts)] *)
Fixpoint join (sep : string) (ts : list string) : string :=
  match ts with
  | [] => EmptyString
  | t :: ts' =>
      match ts' with
      | [] => t
      | _ :: _ => t +:+ sep +:+ join sep ts'
      end
  end.

(** [s] consists of whitespace only (it may be empty). *)
Fixpoint all_space (s : string) : bool :=
  match s with
  | EmptyString => true
  | String c s' => PyStr.is_space c && all_space s'
  end.

(** The first, respectively the last, character of [s] is whitespace. *)
Definition starts_with_space (s : string) : bool :=
  match s with
  | EmptyString => false
  | String c _ => PyStr.is_space c
  end.

Fixpoint ends_with_space (s : string) : bool :=
  match s with
  | EmptyString => false
  | String c s' =>
      match s' with
      | EmptyString => PyStr.is_space c
      | String _ _ => ends_with_space s'
      end
  end.

Section WalkVocabulary.
Context {num : Type} `{!PyNum num}.
Implicit Types (ea : EvalAdjustingArgs (num := num)).

(** The test of line 165: the reference value [cur] is below the older
    value [prev] scaled by the margin. *)
Definition stalled ea (cur prev : num) : bool :=
  py_lt cur (py_mul prev (py_add (of_Z 1) (improvement_margin ea))).

(** Along the chain [cur], [prevs] (newest first) the test of line 165
    fails for every value against the next older one. *)
Fixpoint improving ea (cur : num) (prevs : list num) : bool :=
  match prevs with
  | [] => true
  | prev :: prevs' => negb (stalled ea cur prev) && improving ea prev prevs'
  end.

End WalkVocabulary.

Section MoreVocabulary.
Context {num : Type} `{!PyNum num}.

(** The arguments [a] with the formula [fs]. *)
Definition with_factors (fs : string) (a : MultifactorArgs (num := num))
    : MultifactorArgs (num := num) := {|
  factors := fs;
  constant := constant a;
  warmup_steps := warmup_steps a;
  decay_factor := decay_factor a;
  steps_per_decay := steps_per_decay a;
  steps_per_cycle := steps_per_cycle a;
|}.

End MoreVocabulary.

Section MoreRealInputs.
Import RealModel.
Local Open Scope R_scope.

(** What each factor multiplies the accumulator by, in exact arithmetic;
    1 for a name that is not a factor. *)
Definition factor_multiplier (a : MultifactorArgs (num := R)) (step : R)
    (name : string) : R :=
  if decide (name = "constant") then constant a
  else if decide (name = "linear_warmup") then Rmin 1 (step / warmup_steps a)
  else if decide (name = "rsqrt_decay") then
    / sqrt (Rmax step (warmup_steps a))
  else if decide (name = "rsqrt_normalized_decay") then
    sqrt (warmup_steps a) / sqrt (Rmax step (warmup_steps a))
  else if decide (name = "decay_every") then
    power (decay_factor a) (IZR (floor (step / steps_per_decay a)))
  else if decide (name = "cosine_decay") then cosine_multiplier a step
  else 1.

(** The product of the multipliers of a formula. *)
Definition formula_value (a : MultifactorArgs (num := R)) (step : R)
    (names : list string) : R :=
  foldr (λ name v, factor_multiplier a step name * v) 1 names.

(** Three points of value 0.5. *)
Definition three_ties : list (point R) :=
  [(100%Z, 1 / 2); (200%Z, 1 / 2); (300%Z, 1 / 2)].

(** Constant 1 and decrease rate 0.5. *)
Definition doubling_args : EvalAdjustingArgs (num := R) := {|
  ea_constant := 1;
  steps_to_decrease := 1%Z;
  improvement_margin := improvement_margin EvalAdjustingDefaults;
  decrease_rate := 1 / 2;
  history_mode := "eval";
  metric := "metrics/accuracy";
|}.

End MoreRealInputs.

Section MoreFloatInputs.
Import Binary64.

(** [steps_to_decrease] 0, constant 1.0 and decrease rate 2.0. *)
Definition eager_args : EvalAdjustingArgs (num := spec_float) := {|
  ea_constant := of_Z 1;
  steps_to_decrease := 0;
  improvement_margin := improvement_margin EvalAdjustingDefaults;
  decrease_rate := of_Z 2;
  history_mode := "eval";
  metric := "metrics/accuracy";
|}.

(** Three points of values 0.5, 0.6 and 0.7. *)
Definition three_improving : heap spec_float :=
  one_series_heap [(100, dec 5 1); (200, dec 6 1); (300, dec 7 1)].

(** The series of [four_stalled] recorded at other steps. *)
Definition four_stalled_later : heap spec_float :=
  one_series_heap [(1000, half); (2000, half); (3000, half); (4000, half)].

End MoreFloatInputs.

(** * Part III: properties *)

(** Membership in a list that is written out. *)
Ltac in_list :=
  repeat first [ apply list_elem_of_here | apply list_elem_of_further ].

(** ** Parsing the formula *)

Example split_default :
  PyStr.split "*" default_factors = ["constant "; " linear_warmup "; " rsqrt_decay"].
Proof. reflexivity. Qed.

Example split_keeps_empty_fields :
  PyStr.split "*" "a**b*" = ["a"; ""; "b"; ""] ∧ PyStr.split "*" "" = [""].
Proof. split; reflexivity. Qed.

Example strip_both_ends :
  PyStr.strip (String "009" " a b  ") = "a b" ∧ PyStr.strip "   " = "".
Proof. split; reflexivity. Qed.

Example parse_bogus :
  parse_factors "constant * bogus_factor" = ["constant"; "bogus_factor"].
Proof. reflexivity. Qed.

(** ** The monad *)

Section MonadFacts.
Context {num : Type} `{!PyNum num}.
Implicit Types (σ : heap num).

Lemma heap_free_ret {A} (x : A) : heap_free (num := num) (mret x) (Ok x).
Proof. by intros σ. Qed.

Lemma heap_free_raise {A} (e : exn) :
  heap_free (num := num) (raise (A := A) e) (Raise e).
Proof. by intros σ. Qed.

Lemma bind_Ok {A B} (m : Py A) (k : A → Py B) σ σ' x :
  m σ = (Ok x, σ') → (m ≫= k) σ = k x σ'.
Proof. intros Hm. unfold mbind, Py_bind. by rewrite Hm. Qed.

Lemma bind_Raise {A B} (m : Py A) (k : A → Py B) σ σ' e :
  m σ = (Raise e, σ') → (m ≫= k) σ = (Raise e, σ').
Proof. intros Hm. unfold mbind, Py_bind. by rewrite Hm. Qed.

Lemma Ok_inj {A} (x y : A) : Ok x = Ok y → x = y.
Proof. by intros [= ->]. Qed.

Lemma py_len_Some σ l (xs : list (point num)) :
  σ !! l = Some xs → py_len l σ = (Ok (Z.of_nat (length xs)), σ).
Proof. intros H. unfold py_len. by rewrite H. Qed.

Lemma py_pop_snoc σ l (xs : list (point num)) x :
  σ !! l = Some (xs ++ [x]) → py_pop l σ = (Ok x, <[l := xs]> σ).
Proof.
  intros H. unfold py_pop. by rewrite H, last_snoc, removelast_last.
Qed.

(** The list objects that exist before an allocation keep their
    contents. *)
Lemma fresh_insert_frame σ (ys : list (point num)) l xs :
  σ !! l = Some xs → <[fresh (dom σ) := ys]> σ !! l = Some xs.
Proof.
  intros Hl. rewrite lookup_insert_ne; [done |].
  intros <-. apply (is_fresh (dom σ)). apply elem_of_dom. by eexists.
Qed.

Lemma History_series_frame (history : History) σ (ys : list (point num)) mode m :
  history_allocated history σ →
  History_series history mode m (<[fresh (dom σ) := ys]> σ)
  = History_series history mode m σ.
Proof.
  intros Hwf. unfold History_series.
  destruct (_values history !! (mode, m)) as [l |] eqn:Hk; [| done].
  destruct (Hwf _ _ Hk) as [xs Hl].
  by rewrite (fresh_insert_frame σ ys l xs Hl), Hl.
Qed.

Lemma one_series_series (mode m : string) (xs : list (point num)) :
  History_series (one_series mode m) mode m (one_series_heap xs) = xs.
Proof.
  unfold History_series, one_series, one_series_heap. simpl.
  by rewrite !lookup_singleton_eq.
Defined.

Lemma one_series_allocated (mode m : string) (xs : list (point num)) :
  history_allocated (one_series mode m) (one_series_heap xs).
Proof.
  intros k l Hk. unfold one_series in Hk. simpl in Hk.
  apply lookup_singleton_Some in Hk as [_ <-].
  unfold one_series_heap. rewrite lookup_singleton_eq. by eexists.
Defined.

(** A returned dict determines its learning rate. *)
Lemma returned_dict_inj (v w : num) σ σ' :
  (Ok ({[ "learning_rate" := v ]} : gmap string num), σ)
  = (Ok {[ "learning_rate" := w ]}, σ') → v = w.
Proof.
  intros H. apply (f_equal fst) in H. simpl in H. apply Ok_inj in H.
  apply (f_equal (λ d : gmap string num, d !! "learning_rate")) in H.
  rewrite !lookup_singleton_eq in H. by apply (inj Some).
Qed.

(** A returned dict has the one key ["learning_rate"]. *)
Lemma returned_dict_dom (v : num) :
  dom ({[ "learning_rate" := v ]} : gmap string num) = {[ "learning_rate" ]}.
Proof. apply dom_singleton_L. Qed.

End MonadFacts.

(** ** The factor evaluator *)

Lemma first_unknown_Some names name :
  first_unknown names = Some name → name ∈ names ∧ name ∉ known_factors.
Proof.
  induction names as [| t names IH]; simpl; [done |].
  case_decide as Ht.
  - intros H. destruct (IH H). split; [by apply list_elem_of_further | done].
  - intros [= ->]. split; [apply list_elem_of_here | done].
Qed.

Lemma first_unknown_None names :
  first_unknown names = None ↔ Forall (λ t, t ∈ known_factors) names.
Proof.
  induction names as [| t names IH]; simpl; [done |].
  case_decide as Ht.
  - rewrite IH. split; [by constructor | by inversion 1].
  - split; [done | by inversion 1].
Qed.

Lemma default_names_eq :
  default_names = ["constant"; "linear_warmup"; "rsqrt_decay"].
Proof. reflexivity. Qed.

Lemma default_names_known (t : string) : t ∈ default_names → t ∈ known_factors.
Proof.
  rewrite default_names_eq. unfold known_factors. intros Ht.
  repeat (apply elem_of_cons in Ht as [-> | Ht]; [in_list |]).
  by apply elem_of_nil in Ht.
Defined.

Section EvaluatorFacts.
Context {num : Type} `{!PyNum num} `{!Backend num}.
Implicit Types (σ : heap num) (a : MultifactorArgs (num := num)).

Lemma apply_factor_known a step name acc :
  name ∈ known_factors →
  ∃ v, heap_free (apply_factor a step name acc) (Ok v).
Proof.
  intros Hin. unfold apply_factor.
  repeat case_decide; try (eexists; apply heap_free_ret).
  exfalso. unfold known_factors in Hin.
  repeat (apply elem_of_cons in Hin as [-> | Hin]; [done |]).
  by apply elem_of_nil in Hin.
Qed.

Lemma apply_factor_unknown a step name acc :
  name ∉ known_factors →
  heap_free (apply_factor a step name acc) (Raise (unknown_factor name)).
Proof.
  intros Hnot. unfold apply_factor.
  repeat case_decide; try apply heap_free_raise;
    exfalso; apply Hnot; subst name; unfold known_factors; in_list.
Qed.

Lemma apply_factor_constant a step acc :
  apply_factor a step "constant" acc = mret (py_mul acc (constant a)).
Proof. reflexivity. Qed.

Lemma apply_factor_linear_warmup a step acc :
  apply_factor a step "linear_warmup" acc
  = mret (py_mul acc
            (jnp_minimum (of_Z 1) (py_truediv step (warmup_steps a)))).
Proof. reflexivity. Qed.

Lemma apply_factor_cosine_decay a step acc :
  apply_factor a step "cosine_decay" acc
  = mret (py_mul acc
            (py_mul (dec 5 1)
               (py_add (of_Z 1)
                  (jnp_cos
                     (py_mul jnp_pi
                        (py_mod
                           (jnp_maximum (of_Z 0)
                              (py_truediv (py_sub step (warmup_steps a))
                                 (py_float (steps_per_cycle a))))
                           (of_Z 1))))))).
Proof. reflexivity. Qed.

(** The loop over the factors never touches the heap. *)
Lemma for_factors_heap_free a step names acc :
  ∃ r, heap_free (for_factors a step names acc) r.
Proof.
  revert acc. induction names as [| name names IH]; intros acc; simpl.
  - eexists. apply heap_free_ret.
  - destruct (decide (name ∈ known_factors)) as [Hin | Hnot].
    + destruct (apply_factor_known a step name acc Hin) as [v Hv].
      destruct (IH v) as [r Hr]. exists r. intros σ.
      rewrite (bind_Ok _ _ σ σ v) by apply Hv. apply Hr.
    + exists (Raise (unknown_factor name)). intros σ.
      apply bind_Raise, apply_factor_unknown, Hnot.
Qed.

Lemma for_factors_all_known a step names acc :
  Forall (λ t, t ∈ known_factors) names →
  ∃ v, heap_free (for_factors a step names acc) (Ok v).
Proof.
  revert acc. induction names as [| name names IH]; intros acc Hall; simpl.
  - eexists. apply heap_free_ret.
  - apply Forall_cons in Hall as [Hin Hall].
    destruct (apply_factor_known a step name acc Hin) as [v Hv].
    destruct (IH v Hall) as [w Hw]. exists w. intros σ.
    rewrite (bind_Ok _ _ σ σ v) by apply Hv. apply Hw.
Qed.

Lemma for_factors_first_unknown a step names name acc :
  first_unknown names = Some name →
  heap_free (for_factors a step names acc) (Raise (unknown_factor name)).
Proof.
  revert acc. induction names as [| t names IH]; intros acc; simpl; [done |].
  case_decide as Ht.
  - intros H σ. destruct (apply_factor_known a step t acc Ht) as [v Hv].
    rewrite (bind_Ok _ _ σ σ v) by apply Hv. by apply IH.
  - intros [= ->] σ. apply bind_Raise, apply_factor_unknown, Ht.
Qed.

(** What [learning_rate] returns for the value [v] of the loop. *)
Lemma learning_rate_Ok names a step v :
  heap_free (for_factors a step names (of_Z 1)) (Ok v) →
  heap_free (learning_rate names a step)
    (Ok {[ "learning_rate" := jnp_asarray_float32 v ]}).
Proof.
  intros Hv σ. unfold learning_rate.
  by rewrite (bind_Ok _ _ σ σ v) by apply Hv.
Qed.

Lemma learning_rate_Raise names a step e :
  heap_free (for_factors a step names (of_Z 1)) (Raise e) →
  heap_free (learning_rate names a step) (Raise e).
Proof. intros He σ. unfold learning_rate. apply bind_Raise, He. Qed.

(** A formula of one factor: the loop runs once from 1.0. *)
Lemma learning_rate_one_factor a name step v σ :
  apply_factor a step name (of_Z 1) = mret v →
  learning_rate [name] a step σ
  = (Ok {[ "learning_rate" := jnp_asarray_float32 v ]}, σ).
Proof.
  intros Hv. unfold learning_rate. simpl for_factors. by rewrite Hv.
Qed.

Lemma learning_rate_deterministic names a :
  deterministic (learning_rate names a).
Proof.
  intros step. destruct (for_factors_heap_free a step names (of_Z 1)) as [r Hr].
  destruct r as [v | e].
  - eexists. by apply learning_rate_Ok.
  - eexists. by apply learning_rate_Raise.
Qed.

Lemma MultifactorSchedule_default (h : option History) (c : num) σ :
  MultifactorSchedule h (with_constant c MultifactorDefaults) σ
  = (Ok (learning_rate default_names (with_constant c MultifactorDefaults)), σ).
Proof. unfold MultifactorSchedule, default_names. reflexivity. Qed.

End EvaluatorFacts.

(** ** The walk of [EvalAdjustingSchedule] *)

Section WalkFacts.
Context {num : Type} `{!PyNum num}.
Implicit Types (σ : heap num) (ea : EvalAdjustingArgs (num := num)).

Lemma py_float_div_spec (x y : num) σ :
  py_float_div x y σ
  = (if py_is_zero y then Raise ZeroDivisionError else Ok (py_truediv x y), σ).
Proof. unfold py_float_div. by destruct (py_is_zero y). Qed.

(** A turn raises exactly when it decreases and the rate is zero. *)
Lemma loop_body_spec ea prev st σ :
  loop_body ea prev st σ
  = (if decreases_at ea prev st && py_is_zero (decrease_rate ea)
     then Raise ZeroDivisionError
     else Ok (loop_step ea prev st), σ).
Proof.
  unfold loop_body, loop_step, decreases_at.
  destruct (py_lt _ _); simpl; destruct (_ <=? _); simpl; try done;
    unfold mbind, Py_bind; rewrite py_float_div_spec;
    by destruct (py_is_zero _).
Qed.

(** With one turn of fuel per element, the loop pops down to the oldest
    point [x0] and returns, unless a division fails on the way. *)
Lemma while_loop_spec ea l x0 (rest : list (point num)) :
  ∀ fuel st σ,
    σ !! l = Some (x0 :: rest) →
    (length rest < fuel)%nat →
    ∃ ys,
      while_loop fuel ea l st σ
      = (walk_outcome ea st (rev (snd <$> rest)), <[l := ys]> σ) ∧
      (∀ st', walk_outcome ea st (rev (snd <$> rest)) = Ok st' → ys = [x0]).
Proof.
  induction rest as [| p rest IH] using rev_ind; intros fuel st σ Hl Hfuel.
  - destruct fuel as [| fuel]; [simpl in Hfuel; lia |]. exists [x0].
    split; [| done]. simpl.
    rewrite (bind_Ok _ _ σ σ 1) by (by rewrite (py_len_Some _ _ _ Hl)).
    unfold walk_outcome. simpl. rewrite andb_false_r. by rewrite insert_id.
  - destruct fuel as [| fuel]; [simpl in Hfuel; lia |].
    rewrite length_app in Hfuel. simpl in Hfuel.
    cbn [while_loop].
    rewrite (bind_Ok _ _ σ σ (Z.of_nat (length (x0 :: rest ++ [p]))))
      by (by apply py_len_Some).
    replace (1 <? Z.of_nat (length (x0 :: rest ++ [p]))) with true
      by (symmetry; apply Z.ltb_lt; simpl; rewrite length_app; simpl; lia).
    rewrite (bind_Ok _ _ σ (<[l := x0 :: rest]> σ) p)
      by (by apply (py_pop_snoc σ l (x0 :: rest) p)).
    rewrite fmap_app, rev_app_distr. simpl rev. simpl app.
    unfold walk_outcome. cbn [walk_decreases walk fold_left].
    destruct (decreases_at ea (snd p) st) eqn:Hdec;
      destruct (py_is_zero (decrease_rate ea)) eqn:Hzero.
    + exists (x0 :: rest). split; [| done].
      erewrite bind_Raise; [reflexivity |].
      by rewrite loop_body_spec, Hdec, Hzero.
    + destruct (IH fuel (loop_step ea (snd p) st) (<[l := x0 :: rest]> σ))
        as (ys & Hrun & Hys); [by rewrite lookup_insert_eq | lia |].
      exists ys. split.
      * erewrite bind_Ok by (by rewrite loop_body_spec, Hdec, Hzero).
        rewrite Hrun, insert_insert_eq. unfold walk_outcome.
        by rewrite Hzero.
      * intros st' _. apply (Hys (walk ea (loop_step ea (snd p) st)
                                    (rev (snd <$> rest)))).
        unfold walk_outcome. by rewrite Hzero.
    + destruct (IH fuel (loop_step ea (snd p) st) (<[l := x0 :: rest]> σ))
        as (ys & Hrun & Hys); [by rewrite lookup_insert_eq | lia |].
      exists ys. split.
      * erewrite bind_Ok by (by rewrite loop_body_spec, Hdec).
        rewrite Hrun, insert_insert_eq. unfold walk_outcome.
        by rewrite Hzero.
      * intros st' Hst'. apply (Hys st'). unfold walk_outcome.
        by rewrite Hzero.
    + destruct (IH fuel (loop_step ea (snd p) st) (<[l := x0 :: rest]> σ))
        as (ys & Hrun & Hys); [by rewrite lookup_insert_eq | lia |].
      exists ys. split.
      * erewrite bind_Ok by (by rewrite loop_body_spec, Hdec).
        rewrite Hrun, insert_insert_eq. unfold walk_outcome.
        by rewrite Hzero.
      * intros st' _. apply (Hys (walk ea (loop_step ea (snd p) st)
                                    (rev (snd <$> rest)))).
        unfold walk_outcome. by rewrite Hzero.
Qed.

Lemma newest_value_short (xs : list (point num)) :
  (length xs < 2)%nat → newest_value xs = None.
Proof.
  intros H. unfold newest_value.
  by replace (length xs <? 2)%nat with true by (symmetry; by apply Nat.ltb_lt).
Qed.

Lemma newest_value_snoc x0 (rest : list (point num)) p :
  newest_value (x0 :: rest ++ [p]) = Some (snd p).
Proof.
  unfold newest_value.
  replace (length (x0 :: rest ++ [p]) <? 2)%nat with false
    by (symmetry; apply Nat.ltb_ge; simpl; rewrite length_app; simpl; lia).
  change (x0 :: rest ++ [p]) with ((x0 :: rest) ++ [p]).
  by rewrite last_snoc.
Qed.

(** The oldest point [x0] does not occur on the right-hand side. *)
Lemma seen_snoc x0 (rest : list (point num)) p :
  seen (x0 :: rest ++ [p]) = rev (snd <$> rest).
Proof.
  unfold seen.
  change (x0 :: rest ++ [p]) with ((x0 :: rest) ++ [p]).
  replace (rev ((x0 :: rest) ++ [p])) with (p :: (rev rest ++ [x0]))
    by (by rewrite rev_app_distr).
  cbn iota beta. by rewrite rev_app_distr, rev_involutive.
Qed.

Lemma adjusted_of_short ea (xs : list (point num)) :
  (length xs < 2)%nat → adjusted_of ea xs = ea_constant ea.
Proof. intros H. unfold adjusted_of. by rewrite newest_value_short. Qed.

Lemma decreases_of_short ea (xs : list (point num)) :
  (length xs < 2)%nat → decreases_of ea xs = 0%nat.
Proof. intros H. unfold decreases_of. by rewrite newest_value_short. Qed.

Lemma division_fails_short ea (xs : list (point num)) :
  (length xs < 2)%nat → division_fails ea xs = false.
Proof.
  intros H. unfold division_fails. rewrite decreases_of_short by done.
  apply andb_false_r.
Qed.

Lemma adjusted_of_snoc ea x0 (rest : list (point num)) p :
  adjusted_of ea (x0 :: rest ++ [p])
  = adjusted (walk ea (walk_init ea (snd p)) (rev (snd <$> rest))).
Proof. unfold adjusted_of. by rewrite newest_value_snoc, seen_snoc. Qed.

Lemma decreases_of_snoc ea x0 (rest : list (point num)) p :
  decreases_of ea (x0 :: rest ++ [p])
  = walk_decreases ea (walk_init ea (snd p)) (rev (snd <$> rest)).
Proof. unfold decreases_of. by rewrite newest_value_snoc, seen_snoc. Qed.

Lemma left_over_long x0 (rest : list (point num)) :
  (1 ≤ length rest)%nat → left_over (x0 :: rest) = [x0].
Proof.
  intros H. unfold left_over.
  replace (length (x0 :: rest) <? 2)%nat with false; [done |].
  symmetry. apply Nat.ltb_ge. simpl. lia.
Qed.

Lemma adjusted_constant_spec ea l (xs : list (point num)) σ :
  σ !! l = Some xs →
  ∃ ys,
    adjusted_constant ea l σ = (adjusted_outcome ea xs, <[l := ys]> σ) ∧
    (division_fails ea xs = false → ys = left_over xs).
Proof.
  intros Hl. unfold adjusted_constant, adjusted_outcome.
  rewrite (bind_Ok _ _ σ σ (Z.of_nat (length xs))) by (by apply py_len_Some).
  destruct xs as [| x0 rest].
  { exists []. split; [| done].
    rewrite division_fails_short, adjusted_of_short by (simpl; lia).
    simpl. by rewrite insert_id. }
  destruct rest as [| p rest _] using rev_ind.
  { exists [x0]. split; [| done].
    rewrite division_fails_short, adjusted_of_short by (simpl; lia).
    simpl. by rewrite insert_id. }
  unfold division_fails.
  rewrite adjusted_of_snoc, decreases_of_snoc, left_over_long
    by (rewrite length_app; simpl; lia).
  replace (Z.of_nat (length (x0 :: rest ++ [p])) <? 2) with false
    by (symmetry; apply Z.ltb_ge; simpl; rewrite length_app; simpl; lia).
  rewrite (bind_Ok _ _ σ (<[l := x0 :: rest]> σ) p)
    by (by apply (py_pop_snoc σ l (x0 :: rest) p)).
  destruct (while_loop_spec ea l x0 rest
              (Z.to_nat (Z.of_nat (length (x0 :: rest ++ [p]))))
              {| cur := snd p; steps_without_improvement := 0;
                 adjusted := ea_constant ea |}
              (<[l := x0 :: rest]> σ)) as (ys & Hrun & Hys).
  { by rewrite lookup_insert_eq. }
  { simpl. rewrite length_app. simpl. lia. }
  exists ys. unfold walk_outcome in Hrun, Hys.
  fold (walk_init ea (snd p)) in Hrun, Hys.
  destruct (py_is_zero (decrease_rate ea)
            && (0 <? walk_decreases ea (walk_init ea (snd p))
                       (rev (snd <$> rest)))%nat) eqn:Hfail.
  - split; [| done].
    erewrite bind_Raise; [| exact Hrun]. by rewrite insert_insert_eq.
  - split; [| intros _; by eapply Hys].
    erewrite bind_Ok; [| exact Hrun]. by rewrite insert_insert_eq.
Qed.

(** Had [get] handed out the list object of the series itself, the walk
    would have shortened the series of the history to its oldest point. *)
Lemma walk_on_the_series_itself ea mode m x0 (rest : list (point num)) :
  (1 ≤ length rest)%nat →
  division_fails ea (x0 :: rest) = false →
  ∃ c σ1,
    adjusted_constant ea 1%positive (one_series_heap (x0 :: rest)) = (Ok c, σ1) ∧
    History_series (one_series mode m) mode m σ1 = [x0].
Proof.
  intros Hlen Hok.
  destruct (adjusted_constant_spec ea 1%positive (x0 :: rest)
              (one_series_heap (x0 :: rest))) as (ys & Hrun & Hys);
    [apply lookup_singleton_eq |].
  rewrite (Hys Hok), left_over_long in Hrun by done.
  unfold adjusted_outcome in Hrun. rewrite Hok in Hrun.
  do 2 eexists. split; [exact Hrun |].
  unfold one_series_heap. rewrite insert_singleton_eq.
  apply (one_series_series mode m [x0]).
Qed.

(** Every turn of the loop either keeps the constant or divides it once. *)
Lemma loop_step_adjusted ea prev st :
  adjusted (loop_step ea prev st)
  = if decreases_at ea prev st
    then py_truediv (adjusted st) (decrease_rate ea)
    else adjusted st.
Proof.
  unfold loop_step, decreases_at.
  destruct (py_lt _ _); simpl; by destruct (_ <=? _).
Qed.

Lemma walk_decreased ea prevs :
  ∀ st,
    adjusted (walk ea st prevs)
    = decreased ea (walk_decreases ea st prevs) (adjusted st).
Proof.
  induction prevs as [| prev prevs IH]; intros st; [done |].
  change (walk ea st (prev :: prevs)) with (walk ea (loop_step ea prev st) prevs).
  cbn [walk_decreases]. rewrite IH, loop_step_adjusted.
  destruct (decreases_at ea prev st); simpl; [| done].
  unfold decreased. symmetry.
  exact (Nat.iter_succ_r _ (λ x, py_truediv x (decrease_rate ea)) (adjusted st)).
Qed.

Lemma walk_decreases_le ea prevs :
  ∀ st, (walk_decreases ea st prevs ≤ length prevs)%nat.
Proof.
  induction prevs as [| prev prevs IH]; intros st; simpl; [lia |].
  specialize (IH (loop_step ea prev st)).
  destruct (decreases_at ea prev st); lia.
Qed.

(** The adjusted constant is the constant divided once per decrease. *)
Lemma adjusted_of_decreased ea (xs : list (point num)) :
  adjusted_of ea xs = decreased ea (decreases_of ea xs) (ea_constant ea).
Proof.
  unfold adjusted_of, decreases_of.
  destruct (newest_value xs) as [v |]; [| done].
  by rewrite walk_decreased.
Qed.

Lemma decreases_of_le ea (xs : list (point num)) :
  (decreases_of ea xs ≤ length xs - 2)%nat.
Proof.
  destruct xs as [| x0 rest]; [by rewrite decreases_of_short by (simpl; lia) |].
  destruct rest as [| p rest _] using rev_ind;
    [by rewrite decreases_of_short by (simpl; lia) |].
  rewrite decreases_of_snoc.
  pose proof (walk_decreases_le ea (rev (snd <$> rest)) (walk_init ea (snd p)))
    as Hle.
  rewrite length_rev, length_fmap in Hle.
  rewrite length_cons, length_app. simpl. lia.
Qed.

Context `{!Backend num}.

(** [EvalAdjustingSchedule] returns the schedule of the adjusted constant,
    unless a division fails, and leaves one new list object behind. *)
Lemma EvalAdjustingSchedule_spec (history : History) ea σ :
  ∃ ys,
    EvalAdjustingSchedule history ea σ
    = (schedule_outcome ea
         (History_series history (history_mode ea) (metric ea) σ),
       <[fresh (dom σ) := ys]> σ) ∧
    (division_fails ea
       (History_series history (history_mode ea) (metric ea) σ) = false →
     ys = left_over (History_series history (history_mode ea) (metric ea) σ)).
Proof.
  unfold EvalAdjustingSchedule, schedule_outcome.
  erewrite bind_Ok by reflexivity.
  set (xs := History_series history (history_mode ea) (metric ea) σ).
  set (l := fresh (dom σ)).
  assert (<[l := xs]> σ !! l = Some xs) as Hl by apply lookup_insert_eq.
  rewrite (bind_Ok _ _ _ (<[l := xs]> σ) (Z.of_nat (length xs)))
    by (by apply py_len_Some).
  destruct xs as [| x0 rest].
  { exists []. split; [| done].
    rewrite division_fails_short, adjusted_of_short by (simpl; lia).
    simpl. apply MultifactorSchedule_default. }
  destruct rest as [| p rest _] using rev_ind.
  { exists [x0]. split; [| done].
    rewrite division_fails_short, adjusted_of_short by (simpl; lia).
    simpl. apply MultifactorSchedule_default. }
  unfold division_fails.
  rewrite adjusted_of_snoc, decreases_of_snoc, left_over_long
    by (rewrite length_app; simpl; lia).
  replace (Z.of_nat (length (x0 :: rest ++ [p])) <? 2) with false
    by (symmetry; apply Z.ltb_ge; simpl; rewrite length_app; simpl; lia).
  rewrite (bind_Ok _ _ _ (<[l := x0 :: rest]> (<[l := x0 :: rest ++ [p]]> σ)) p)
    by (by apply (py_pop_snoc _ l (x0 :: rest) p)).
  destruct (while_loop_spec ea l x0 rest
              (Z.to_nat (Z.of_nat (length (x0 :: rest ++ [p]))))
              {| cur := snd p; steps_without_improvement := 0;
                 adjusted := ea_constant ea |}
              (<[l := x0 :: rest]> (<[l := x0 :: rest ++ [p]]> σ)))
    as (ys & Hrun & Hys).
  { by rewrite lookup_insert_eq. }
  { simpl. rewrite length_app. simpl. lia. }
  exists ys. unfold walk_outcome in Hrun, Hys.
  fold (walk_init ea (snd p)) in Hrun, Hys.
  destruct (py_is_zero (decrease_rate ea)
            && (0 <? walk_decreases ea (walk_init ea (snd p))
                       (rev (snd <$> rest)))%nat) eqn:Hfail.
  - split; [| done].
    erewrite bind_Raise; [| exact Hrun]. by rewrite !insert_insert_eq.
  - split; [| intros _; by eapply Hys].
    erewrite bind_Ok; [| exact Hrun]. rewrite !insert_insert_eq.
    apply MultifactorSchedule_default.
Qed.

(** [adjusted_constant] is the part of [EvalAdjustingSchedule] between the
    query of the history and the call of [MultifactorSchedule]. *)
Lemma EvalAdjustingSchedule_adjusted_constant (history : History) ea σ :
  (EvalAdjustingSchedule history ea σ).1
  = ((metrics ← History_get history (history_mode ea) (metric ea);
      c ← adjusted_constant ea metrics;
      MultifactorSchedule (Some history) (with_constant c MultifactorDefaults)) σ).1.
Proof.
  destruct (EvalAdjustingSchedule_spec history ea σ) as (ys & -> & _).
  erewrite bind_Ok by reflexivity.
  destruct (adjusted_constant_spec ea (fresh (dom σ))
              (History_series history (history_mode ea) (metric ea) σ)
              (<[fresh (dom σ) :=
                   History_series history (history_mode ea) (metric ea) σ]> σ))
    as (zs & Hrun & _); [by rewrite lookup_insert_eq |].
  unfold schedule_outcome, adjusted_outcome in *.
  destruct (division_fails ea _).
  - by erewrite bind_Raise by exact Hrun.
  - erewrite bind_Ok by exact Hrun. by rewrite MultifactorSchedule_default.
Qed.

(** With a rate that is not zero, no division fails. *)
Lemma division_fails_nonzero ea (xs : list (point num)) :
  py_is_zero (decrease_rate ea) = false → division_fails ea xs = false.
Proof. intros H. unfold division_fails. by rewrite H. Qed.

Lemma EvalAdjustingSchedule_returns (history : History) ea σ :
  division_fails ea
    (History_series history (history_mode ea) (metric ea) σ) = false →
  EvalAdjustingSchedule history ea σ
  = (Ok (learning_rate default_names
           (with_constant
              (adjusted_of ea
                 (History_series history (history_mode ea) (metric ea) σ))
              MultifactorDefaults)),
     <[fresh (dom σ) :=
         left_over (History_series history (history_mode ea) (metric ea) σ)]> σ).
Proof.
  intros Hok.
  destruct (EvalAdjustingSchedule_spec history ea σ) as (ys & -> & Hys).
  rewrite (Hys Hok). unfold schedule_outcome. by rewrite Hok.
Qed.

(** A schedule that [EvalAdjustingSchedule] returns is the schedule of
    the adjusted constant. *)
Lemma EvalAdjustingSchedule_returned (history : History) ea σ sched σ1 :
  EvalAdjustingSchedule history ea σ = (Ok sched, σ1) →
  division_fails ea
    (History_series history (history_mode ea) (metric ea) σ) = false ∧
  sched = learning_rate default_names
            (with_constant
               (adjusted_of ea
                  (History_series history (history_mode ea) (metric ea) σ))
               MultifactorDefaults).
Proof.
  intros Hrun.
  destruct (EvalAdjustingSchedule_spec history ea σ) as (ys & Heq & _).
  rewrite Heq in Hrun. apply (f_equal fst) in Hrun. simpl in Hrun.
  unfold schedule_outcome in Hrun.
  destruct (division_fails ea _); [discriminate Hrun |].
  split; [done |]. symmetry. by apply Ok_inj.
Qed.

(** The outcome does not depend on the oldest point. *)
Lemma schedule_outcome_oldest ea x0 x0' (rest : list (point num)) :
  schedule_outcome ea (x0 :: rest) = schedule_outcome ea (x0' :: rest).
Proof.
  destruct rest as [| p rest _] using rev_ind.
  - unfold schedule_outcome.
    by rewrite !division_fails_short, !adjusted_of_short by (simpl; lia).
  - unfold schedule_outcome, division_fails.
    by rewrite !adjusted_of_snoc, !decreases_of_snoc.
Qed.

End WalkFacts.

(** ** Exact arithmetic *)

Section RealFacts.
Import RealModel.
Local Open Scope R_scope.

Lemma floor_eq (r : R) (z : Z) : IZR z <= r < IZR z + 1 → floor r = z.
Proof. intros [H1 H2]. symmetry. apply Int_part_spec. lra. Qed.

Lemma cosine_schedule (a : MultifactorArgs (num := R)) (step : R) (σ : heap R) :
  learning_rate ["cosine_decay"] a step σ
  = (Ok {[ "learning_rate" := cosine_multiplier a step ]}, σ).
Proof.
  rewrite (learning_rate_one_factor a "cosine_decay" step _ σ
             (apply_factor_cosine_decay a step (of_Z 1))).
  do 3 f_equal. unfold cosine_multiplier. simpl.
  change (10 ^ Z.of_nat 1)%Z with 10%Z. lra.
Qed.

Lemma cosine_multiplier_0 : cosine_multiplier cosine_args 0 = 1.
Proof.
  unfold cosine_multiplier. simpl.
  replace ((0 - 0) / 100000) with 0 by lra.
  rewrite Rmax_left by lra.
  replace (0 / 1) with 0 by lra.
  rewrite (floor_eq 0 0) by lra.
  replace (PI * (0 - 1 * 0)) with 0 by lra.
  rewrite cos_0. lra.
Qed.

Lemma cosine_multiplier_half : cosine_multiplier cosine_args 50000 = 1 / 2.
Proof.
  unfold cosine_multiplier. simpl.
  replace ((50000 - 0) / 100000) with (1 / 2) by lra.
  rewrite Rmax_right by lra.
  rewrite (floor_eq (1 / 2 / 1) 0) by lra.
  replace (PI * (1 / 2 - 1 * 0)) with (PI / 2) by lra.
  rewrite cos_PI2. lra.
Qed.

Lemma cosine_multiplier_full : cosine_multiplier cosine_args 100000 = 1.
Proof.
  unfold cosine_multiplier. simpl.
  replace ((100000 - 0) / 100000) with 1 by lra.
  rewrite Rmax_right by lra.
  rewrite (floor_eq (1 / 1) 1) by lra.
  replace (PI * (1 - 1 * 1)) with 0 by lra.
  rewrite cos_0. lra.
Qed.

Lemma decreased_pow (ea : EvalAdjustingArgs (num := R)) (k : nat) (c : R) :
  decreased ea k c = c / decrease_rate ea ^ k.
Proof.
  induction k as [| k IH].
  - unfold decreased. simpl. lra.
  - change (decreased ea (S k) c) with (decreased ea k c / decrease_rate ea).
    rewrite IH. simpl pow. unfold Rdiv. rewrite Rinv_mult. ring.
Qed.

Lemma divided_bounds (c r : R) (k : nat) :
  0 < c → 1 <= r → 0 < c / r ^ k <= c.
Proof.
  intros Hc Hr.
  assert (1 <= r ^ k) as Hpow by (by apply pow_R1_Rle).
  assert (0 < / r ^ k <= 1) as [Hinv0 Hinv1].
  { split; [apply Rinv_0_lt_compat; lra |].
    rewrite <- Rinv_1. apply Rinv_le_contravar; lra. }
  unfold Rdiv. split; [by apply Rmult_lt_0_compat |].
  rewrite <- (Rmult_1_r c) at 2. apply Rmult_le_compat_l; lra.
Qed.

Lemma default_rate_nonzero :
  py_is_zero (decrease_rate (EvalAdjustingDefaults (num := R))) = false.
Proof.
  apply bool_decide_eq_false. simpl. unfold dec. simpl.
  change (10 ^ Z.of_nat 1)%Z with 10%Z. lra.
Qed.

Lemma rate_nonzero (ea : EvalAdjustingArgs (num := R)) :
  decrease_rate ea ≠ 0 → py_is_zero (decrease_rate ea) = false.
Proof. intros H. by apply bool_decide_eq_false. Qed.

Lemma linear_warmup_schedule (w step : R) (σ : heap R) :
  learning_rate ["linear_warmup"] (linear_warmup_args w) step σ
  = (Ok {[ "learning_rate" := Rmin 1 (step / w) ]}, σ).
Proof.
  rewrite (learning_rate_one_factor _ "linear_warmup" step _ σ
             (apply_factor_linear_warmup _ step (of_Z 1))).
  do 3 f_equal. simpl. lra.
Qed.

Lemma linear_ramp (w step : R) :
  0 < w →
  (0 <= step <= w → Rmin 1 (step / w) = step / w) ∧
  (w <= step → Rmin 1 (step / w) = 1).
Proof.
  intros Hw. split.
  - intros [_ Hle]. apply Rmin_right.
    apply (Rmult_le_reg_r w); [done |]. field_simplify; lra.
  - intros Hle. apply Rmin_left.
    apply (Rmult_le_reg_r w); [done |]. field_simplify; lra.
Qed.

End RealFacts.

(** ** Binary64 *)

Section FloatFacts.
Import Binary64.

Lemma overflow_schedule (E : Elementary) step (σ : heap spec_float) :
  learning_rate (Backend0 := backend E) ["constant"] overflow_args step σ
  = (Ok {[ "learning_rate" := S754_infinity false ]}, σ).
Proof.
  rewrite (learning_rate_one_factor _ "constant" step _ σ
             (apply_factor_constant _ step (of_Z 1))).
  do 3 f_equal.
Qed.

(** The reference trace of the walk, point by point. *)
Example four_stalled_trace :
  (metrics ← History_get (one_series "eval" "metrics/accuracy")
               "eval" "metrics/accuracy";
   adjusted_constant (stalled_args "eval" "metrics/accuracy") metrics)
    four_stalled
  = (Ok half, <[2%positive := [(100, half)]]> four_stalled).
Proof. vm_compute. reflexivity. Qed.

(** Five points 0.1, 0.5, 0.4, 0.45, 0.3, oldest first: the newest value
    0.3 stalls against 0.45 and 0.4, which halves the constant and moves
    the reference value to 0.4; 0.4 stalls against 0.5 once; 0.1 is never
    looked at. *)
Example five_points_trace :
  adjusted_of (stalled_args "eval" "metrics/accuracy")
    [(100, dec 1 1); (200, dec 5 1); (300, dec 4 1); (400, dec 45 2);
     (500, dec 3 1)]
  = half ∧
  walk (stalled_args "eval" "metrics/accuracy")
    (walk_init (stalled_args "eval" "metrics/accuracy") (dec 3 1))
    [dec 45 2; dec 4 1; dec 5 1]
  = {| cur := dec 4 1; steps_without_improvement := 1; adjusted := half |}.
Proof. split; vm_compute; reflexivity. Qed.

(** With a zero rate the first decrease raises. *)
Example zero_rate_trace :
  (metrics ← History_get (one_series "eval" "metrics/accuracy")
               "eval" "metrics/accuracy";
   adjusted_constant zero_rate_args metrics) three_stalled
  = (Raise ZeroDivisionError, <[2%positive := [(100, half)]]> three_stalled).
Proof. vm_compute. reflexivity. Qed.

(** The smallest positive constant is halved to zero. *)
Example underflow_trace :
  (metrics ← History_get (one_series "eval" "metrics/accuracy")
               "eval" "metrics/accuracy";
   adjusted_constant underflow_args metrics) three_stalled
  = (Ok (S754_zero false), <[2%positive := [(100, half)]]> three_stalled).
Proof. vm_compute. reflexivity. Qed.

(** The default formula in binary64: 0.1 min(1, step / 400) /
    sqrt (max (step, 400)), cast to binary32.  The values at steps 0, 100,
    400 and 1600 are the binary32 numbers nearest to 0, 0.00125, 0.005 and
    0.0025. *)
Example default_schedule_values (E : Elementary) (σ : heap spec_float) :
  learning_rate (Backend0 := backend E) default_names MultifactorDefaults
    (of_Z 0) σ
  = (Ok {[ "learning_rate" := S754_zero false ]}, σ) ∧
  learning_rate (Backend0 := backend E) default_names MultifactorDefaults
    (of_Z 100) σ
  = (Ok {[ "learning_rate" := S754_finite false 10737418 (-33) ]}, σ) ∧
  learning_rate (Backend0 := backend E) default_names MultifactorDefaults
    (of_Z 400) σ
  = (Ok {[ "learning_rate" := S754_finite false 10737418 (-31) ]}, σ) ∧
  learning_rate (Backend0 := backend E) default_names MultifactorDefaults
    (of_Z 1600) σ
  = (Ok {[ "learning_rate" := S754_finite false 10737418 (-32) ]}, σ).
Proof. split_and!; vm_compute; reflexivity. Qed.

End FloatFacts.

(** ** Strings *)

Section StringFacts.
Implicit Types (s t : string) (c sep : ascii).

Lemma split_nonempty sep s : PyStr.split sep s ≠ [].
Proof.
  destruct s as [| c s]; simpl; [done |].
  destruct (Ascii.eqb c sep); [done |]. by destruct (PyStr.split sep s).
Qed.

Lemma split_length sep s :
  length (PyStr.split sep s) = S (count_char sep s).
Proof.
  induction s as [| c s IH]; simpl; [done |].
  destruct (Ascii.eqb c sep); simpl; [by rewrite IH |].
  destruct (PyStr.split sep s) as [| t ts] eqn:Hs; simpl in *; [lia | done].
Qed.

Lemma split_fields_free sep s :
  Forall (λ t, count_char sep t = 0%nat) (PyStr.split sep s).
Proof.
  induction s as [| c s IH]; simpl; [by repeat constructor |].
  destruct (Ascii.eqb c sep) eqn:Hc; [by constructor |].
  destruct (PyStr.split sep s) as [| t ts]; [| inversion IH; subst].
  - repeat constructor. simpl. by rewrite Hc.
  - constructor; [| done]. simpl. by rewrite Hc.
Qed.

Lemma join_cons sep_s t t' ts :
  join sep_s (t :: t' :: ts) = t +:+ sep_s +:+ join sep_s (t' :: ts).
Proof. reflexivity. Qed.

Lemma join_split sep s : join (String sep "") (PyStr.split sep s) = s.
Proof.
  induction s as [| c s IH]; simpl; [done |].
  destruct (Ascii.eqb c sep) eqn:Hc.
  - apply Ascii.eqb_eq in Hc as ->.
    destruct (PyStr.split sep s) as [| t ts] eqn:Hs;
      [by apply split_nonempty in Hs |].
    simpl in *. by rewrite IH.
  - destruct (PyStr.split sep s) as [| t ts] eqn:Hs;
      [by apply split_nonempty in Hs |].
    destruct ts as [| t' ts]; simpl in *; by rewrite <- IH.
Qed.

Lemma split_free sep t : count_char sep t = 0%nat → PyStr.split sep t = [t].
Proof.
  induction t as [| c t IH]; simpl; [done |].
  destruct (Ascii.eqb c sep); [done |]. intros H. by rewrite IH.
Qed.

Lemma split_app_sep sep t s :
  count_char sep t = 0%nat →
  PyStr.split sep (t +:+ String sep s) = t :: PyStr.split sep s.
Proof.
  induction t as [| c t IH]; simpl.
  - intros _. by rewrite Ascii.eqb_refl.
  - destruct (Ascii.eqb c sep); [done |]. intros H. by rewrite IH.
Qed.

Lemma split_join sep ts :
  ts ≠ [] → Forall (λ t, count_char sep t = 0%nat) ts →
  PyStr.split sep (join (String sep "") ts) = ts.
Proof.
  intros Hne Hfree. induction Hfree as [| t ts Ht Hts IH]; [done |].
  destruct ts as [| t' ts]; [by apply split_free |].
  rewrite join_cons.
  change (String sep "" +:+ join (String sep "") (t' :: ts))
    with (String sep (join (String sep "") (t' :: ts))).
  rewrite split_app_sep by done. by rewrite IH.
Qed.

Lemma count_char_app c s t :
  count_char c (s +:+ t) = (count_char c s + count_char c t)%nat.
Proof. induction s as [| c' s IH]; simpl; [done |]. rewrite IH. lia. Qed.

Lemma star_not_space c : PyStr.is_space c = true → Ascii.eqb c "*" = false.
Proof.
  intros H. destruct (Ascii.eqb c "*") eqn:Hc; [| done].
  apply Ascii.eqb_eq in Hc as ->. discriminate H.
Qed.

Lemma all_space_free s : all_space s = true → count_char "*" s = 0%nat.
Proof.
  induction s as [| c s IH]; simpl; [done |].
  intros [Hc Hs]%andb_prop. by rewrite (star_not_space c Hc), IH.
Qed.

(** *** Stripping *)

Lemma lstrip_all_space s : all_space s = true → PyStr.lstrip s = "".
Proof.
  induction s as [| c s IH]; simpl; [done |].
  intros [-> Hs]%andb_prop. by apply IH.
Qed.

Lemma rstrip_all_space s : all_space s = true → PyStr.rstrip s = "".
Proof.
  induction s as [| c s IH]; simpl; [done |].
  intros [-> Hs]%andb_prop. by rewrite IH.
Qed.

Lemma lstrip_app_space l s :
  all_space l = true → PyStr.lstrip (l +:+ s) = PyStr.lstrip s.
Proof.
  induction l as [| c l IH]; simpl; [done |].
  intros [-> Hl]%andb_prop. by apply IH.
Qed.

Lemma rstrip_app_space s r :
  all_space r = true → PyStr.rstrip (s +:+ r) = PyStr.rstrip s.
Proof.
  intros Hr. induction s as [| c s IH]; simpl.
  - by apply rstrip_all_space.
  - by rewrite IH.
Qed.

Lemma rstrip_lstrip_app s r :
  all_space r = true →
  PyStr.rstrip (PyStr.lstrip (s +:+ r)) = PyStr.rstrip (PyStr.lstrip s).
Proof.
  intros Hr. induction s as [| c s IH].
  - change ("" +:+ r) with r. by rewrite (lstrip_all_space r Hr).
  - simpl. destruct (PyStr.is_space c); [done |].
    change (String c (s +:+ r)) with (String c s +:+ r).
    by apply rstrip_app_space.
Qed.

Lemma strip_padded l t r :
  all_space l = true → all_space r = true →
  PyStr.strip (l +:+ t +:+ r) = PyStr.strip t.
Proof.
  intros Hl Hr. unfold PyStr.strip.
  rewrite lstrip_app_space by done. by apply rstrip_lstrip_app.
Qed.

Lemma lstrip_starts s : starts_with_space (PyStr.lstrip s) = false.
Proof.
  induction s as [| c s IH]; simpl; [done |].
  destruct (PyStr.is_space c) eqn:Hc; [done |]. simpl. done.
Qed.

Lemma rstrip_ends s : ends_with_space (PyStr.rstrip s) = false.
Proof.
  induction s as [| c s IH]; simpl; [done |].
  destruct (PyStr.rstrip s) as [| c' t] eqn:Ht.
  - destruct (PyStr.is_space c) eqn:Hc; simpl; done.
  - done.
Qed.

Lemma rstrip_starts s :
  starts_with_space s = false → starts_with_space (PyStr.rstrip s) = false.
Proof.
  destruct s as [| c s]; simpl; [done |]. intros Hc.
  destruct (PyStr.rstrip s); [by rewrite Hc |]. done.
Qed.

Lemma count_char_lstrip c s :
  (count_char c (PyStr.lstrip s) ≤ count_char c s)%nat.
Proof.
  induction s as [| c' s IH]; simpl; [done |].
  destruct (PyStr.is_space c'); simpl; lia.
Qed.

Lemma count_char_rstrip c s :
  (count_char c (PyStr.rstrip s) ≤ count_char c s)%nat.
Proof.
  induction s as [| c' s IH]; simpl; [done |].
  destruct (PyStr.rstrip s) as [| c'' t]; simpl in *.
  - destruct (PyStr.is_space c'); simpl; lia.
  - lia.
Qed.

Lemma strip_free c s : count_char c s = 0%nat → count_char c (PyStr.strip s) = 0%nat.
Proof.
  intros H. unfold PyStr.strip.
  pose proof (count_char_rstrip c (PyStr.lstrip s)).
  pose proof (count_char_lstrip c s). lia.
Qed.

Lemma rstrip_fixed s : ends_with_space s = false → PyStr.rstrip s = s.
Proof.
  induction s as [| c s IH]; simpl; [done |].
  destruct s as [| c' s].
  - simpl. by intros ->.
  - intros H. rewrite IH by done. done.
Qed.

Lemma lstrip_fixed s : starts_with_space s = false → PyStr.lstrip s = s.
Proof. destruct s as [| c s]; simpl; [done |]. by intros ->. Qed.

Lemma strip_fixed s :
  starts_with_space s = false → ends_with_space s = false → PyStr.strip s = s.
Proof.
  intros H1 H2. unfold PyStr.strip. rewrite lstrip_fixed by done.
  by apply rstrip_fixed.
Qed.

End StringFacts.

Lemma empty_name_unknown : "" ∉ known_factors.
Proof.
  unfold known_factors. intros H.
  repeat (apply elem_of_cons in H as [H | H]; [discriminate H |]).
  by apply elem_of_nil in H.
Qed.

Lemma parse_factors_blank (fs : string) :
  all_space fs = true → parse_factors fs = [""].
Proof.
  intros H. unfold parse_factors.
  rewrite split_free by (by apply all_space_free).
  simpl. unfold PyStr.strip. by rewrite lstrip_all_space.
Qed.

Lemma first_unknown_app (known : list string) name rest :
  Forall (λ t, t ∈ known_factors) known → name ∉ known_factors →
  first_unknown (known ++ name :: rest) = Some name.
Proof.
  intros Hall Hnot. induction Hall as [| t known Ht Hall IH]; simpl.
  - by rewrite decide_False.
  - by rewrite decide_True.
Qed.

(** ** More on the walk *)

Section MoreWalkFacts.
Context {num : Type} `{!PyNum num}.
Implicit Types (σ : heap num) (ea : EvalAdjustingArgs (num := num)).
Implicit Types (st : walk_state (num := num)).

Lemma loop_step_counter_nonneg ea prev st :
  0 ≤ steps_without_improvement st →
  0 ≤ steps_without_improvement (loop_step ea prev st).
Proof.
  intros H. unfold loop_step.
  destruct (py_lt _ _); cbn [steps_without_improvement];
    destruct (_ <=? _); cbn [steps_without_improvement]; lia.
Qed.

(** A turn that decreases has used up [steps_to_decrease] counted
    comparisons. *)
Lemma loop_step_account ea prev st :
  0 ≤ steps_without_improvement st →
  (if decreases_at ea prev st then steps_to_decrease ea else 0)
  + steps_without_improvement (loop_step ea prev st)
  ≤ steps_without_improvement st + 1.
Proof.
  intros H. unfold loop_step, decreases_at.
  destruct (py_lt _ _); cbn [steps_without_improvement];
    destruct (_ <=? _) eqn:Hle; cbn [steps_without_improvement];
    try apply Z.leb_le in Hle; lia.
Qed.

Lemma walk_account ea prevs :
  ∀ st,
    0 ≤ steps_without_improvement st →
    Z.of_nat (walk_decreases ea st prevs) * steps_to_decrease ea
    + steps_without_improvement (walk ea st prevs)
    ≤ steps_without_improvement st + Z.of_nat (length prevs).
Proof.
  induction prevs as [| prev prevs IH]; intros st Hst.
  - simpl. lia.
  - change (walk ea st (prev :: prevs))
      with (walk ea (loop_step ea prev st) prevs).
    cbn [walk_decreases length].
    pose proof (loop_step_account ea prev st Hst) as Hacc.
    pose proof (IH (loop_step ea prev st)
                  (loop_step_counter_nonneg ea prev st Hst)) as IH'.
    destruct (decreases_at ea prev st); lia.
Qed.

Lemma walk_counter_nonneg ea prevs :
  ∀ st,
    0 ≤ steps_without_improvement st →
    0 ≤ steps_without_improvement (walk ea st prevs).
Proof.
  induction prevs as [| prev prevs IH]; intros st Hst; [done |].
  change (walk ea st (prev :: prevs))
    with (walk ea (loop_step ea prev st) prevs).
  by apply IH, loop_step_counter_nonneg.
Qed.

Lemma walk_decreases_bound ea prevs st :
  steps_without_improvement st = 0 →
  Z.of_nat (walk_decreases ea st prevs) * steps_to_decrease ea
  ≤ Z.of_nat (length prevs).
Proof.
  intros Hst.
  pose proof (walk_account ea prevs st ltac:(lia)).
  pose proof (walk_counter_nonneg ea prevs st ltac:(lia)). lia.
Qed.

(** A series in the form the walk sees it. *)
Lemma series_cases (xs : list (point num)) :
  (length xs < 2)%nat ∨ ∃ x0 rest p, xs = x0 :: rest ++ [p].
Proof.
  destruct xs as [| x0 rest]; [left; simpl; lia |].
  destruct rest as [| p rest _] using rev_ind; [left; simpl; lia |].
  right. by exists x0, rest, p.
Qed.

Lemma decreases_of_bound ea (xs : list (point num)) :
  Z.of_nat (decreases_of ea xs) * steps_to_decrease ea
  ≤ Z.of_nat (length xs - 2).
Proof.
  destruct (series_cases xs) as [Hshort | (x0 & rest & p & ->)].
  - rewrite decreases_of_short by done. lia.
  - rewrite decreases_of_snoc.
    pose proof (walk_decreases_bound ea (rev (snd <$> rest))
                  (walk_init ea (snd p)) eq_refl) as Hb.
    rewrite length_rev, length_fmap in Hb.
    rewrite length_cons, length_app. simpl. lia.
Qed.

(** With a bound that is not positive every turn decreases. *)
Lemma decreases_at_nonpositive ea prev st :
  steps_to_decrease ea ≤ 0 → 0 ≤ steps_without_improvement st →
  decreases_at ea prev st = true.
Proof.
  intros Hstd Hst. unfold decreases_at. apply Z.leb_le.
  destruct (py_lt _ _); lia.
Qed.

Lemma walk_decreases_nonpositive ea prevs :
  steps_to_decrease ea ≤ 0 →
  ∀ st, 0 ≤ steps_without_improvement st →
    walk_decreases ea st prevs = length prevs.
Proof.
  intros Hstd. induction prevs as [| prev prevs IH]; intros st Hst; [done |].
  cbn [walk_decreases length].
  rewrite decreases_at_nonpositive by done.
  by rewrite IH by (by apply loop_step_counter_nonneg).
Qed.

Lemma decreases_of_nonpositive ea (xs : list (point num)) :
  steps_to_decrease ea ≤ 0 → decreases_of ea xs = (length xs - 2)%nat.
Proof.
  intros Hstd.
  destruct (series_cases xs) as [Hshort | (x0 & rest & p & ->)].
  - rewrite decreases_of_short by done. lia.
  - rewrite decreases_of_snoc, walk_decreases_nonpositive by done.
    rewrite length_rev, length_fmap, length_cons, length_app. simpl. lia.
Qed.

(** A turn whose test fails moves the reference value and decreases
    nothing. *)
Lemma loop_step_improved ea prev st :
  1 ≤ steps_to_decrease ea →
  stalled ea (cur st) prev = false →
  decreases_at ea prev st = false ∧
  loop_step ea prev st
  = {| cur := prev; steps_without_improvement := 0; adjusted := adjusted st |}.
Proof.
  intros Hstd Hno. unfold decreases_at, loop_step.
  unfold stalled in Hno. rewrite Hno.
  cbn [steps_without_improvement].
  by replace (steps_to_decrease ea <=? 0) with false
    by (symmetry; apply Z.leb_gt; lia).
Qed.

Lemma walk_decreases_improving ea prevs :
  1 ≤ steps_to_decrease ea →
  ∀ st,
    steps_without_improvement st = 0 →
    improving ea (cur st) prevs = true →
    walk_decreases ea st prevs = 0%nat.
Proof.
  intros Hstd. induction prevs as [| prev prevs IH]; intros st Hst Himp; [done |].
  cbn [improving] in Himp. apply andb_prop in Himp as [Hno Himp].
  apply negb_true_iff in Hno.
  destruct (loop_step_improved ea prev st Hstd Hno) as [Hdec Hstep].
  cbn [walk_decreases]. rewrite Hdec, Hstep. by apply IH.
Qed.

(** A turn whose test succeeds on a series of equal values. *)
Lemma walk_decreases_constant ea (v : num) prevs :
  1 ≤ steps_to_decrease ea →
  stalled ea v v = true →
  Forall (λ prev, prev = v) prevs →
  ∀ st,
    cur st = v →
    0 ≤ steps_without_improvement st < steps_to_decrease ea →
    walk_decreases ea st prevs
    = Z.to_nat ((steps_without_improvement st + Z.of_nat (length prevs))
                `div` steps_to_decrease ea).
Proof.
  intros Hstd Hv Hall.
  induction Hall as [| prev prevs -> Hall IH]; intros st Hcur Hst.
  - simpl. rewrite Z.add_0_r, Z.div_small by done. done.
  - cbn [walk_decreases length].
    unfold decreases_at, loop_step. unfold stalled in Hv. rewrite Hcur, Hv.
    cbn [steps_without_improvement adjusted].
    destruct (steps_to_decrease ea <=? steps_without_improvement st + 1) eqn:Hle.
    + apply Z.leb_le in Hle.
      rewrite IH by (cbn; done || lia). cbn [steps_without_improvement].
      replace (steps_without_improvement st + Z.of_nat (S (length prevs)))
        with (Z.of_nat (length prevs) + 1 * steps_to_decrease ea) by lia.
      rewrite Z.div_add by lia.
      assert (0 ≤ Z.of_nat (length prevs) `div` steps_to_decrease ea)
        by (apply Z.div_pos; lia).
      rewrite Z.add_0_l. lia.
    + apply Z.leb_gt in Hle.
      rewrite IH by (cbn; done || lia). cbn [steps_without_improvement].
      simpl. f_equal. f_equal. lia.
Qed.

Lemma decreases_of_constant ea (v : num) (xs : list (point num)) :
  1 ≤ steps_to_decrease ea →
  stalled ea v v = true →
  Forall (λ p, snd p = v) xs →
  decreases_of ea xs
  = Z.to_nat ((Z.of_nat (length xs) - 2) `div` steps_to_decrease ea).
Proof.
  intros Hstd Hv Hall.
  destruct (series_cases xs) as [Hshort | (x0 & rest & p & ->)].
  - rewrite decreases_of_short by done.
    assert ((Z.of_nat (length xs) - 2) `div` steps_to_decrease ea < 0)
      by (apply Z.div_lt_upper_bound; lia).
    lia.
  - rewrite decreases_of_snoc.
    apply Forall_cons in Hall as [_ Hall].
    apply Forall_app in Hall as [Hrest Hp].
    rewrite Forall_singleton in Hp.
    rewrite (walk_decreases_constant ea v); try done.
    + rewrite length_rev, length_fmap, length_cons, length_app. simpl.
      f_equal. f_equal. lia.
    + apply Forall_rev, Forall_fmap. exact Hrest.
    + simpl. lia.
Qed.

Lemma improving_constant ea (v : num) prevs :
  stalled ea v v = false →
  Forall (λ prev, prev = v) prevs →
  improving ea v prevs = true.
Proof.
  intros Hv Hall. induction Hall as [| prev prevs -> Hall IH]; [done |].
  cbn [improving]. by rewrite Hv, IH.
Qed.

(** The values of a series determine what the walk starts from and
    sees. *)
Lemma newest_value_values (xs ys : list (point num)) :
  snd <$> xs = snd <$> ys → newest_value xs = newest_value ys.
Proof.
  intros H. unfold newest_value.
  assert (length xs = length ys) as ->
    by (rewrite <- (length_fmap snd xs), H; apply length_fmap).
  by rewrite <- !fmap_last, H.
Qed.

Lemma seen_values (xs ys : list (point num)) :
  snd <$> xs = snd <$> ys → seen xs = seen ys.
Proof.
  intros H.
  destruct (series_cases xs) as [Hx | (x0 & rest & p & ->)];
    destruct (series_cases ys) as [Hy | (y0 & rest' & q & ->)].
  - destruct xs as [| x [| x' xs]]; destruct ys as [| y [| y' ys]];
      simpl in *; try lia; try done.
  - apply (f_equal length) in H. rewrite !length_fmap in H.
    rewrite length_cons, length_app in H. simpl in H. lia.
  - apply (f_equal length) in H. rewrite !length_fmap in H.
    rewrite length_cons, length_app in H. simpl in H. lia.
  - rewrite !seen_snoc. rewrite !fmap_cons, !fmap_app in H.
    injection H as _ H. apply app_inj_tail in H as [-> _]. done.
Qed.

End MoreWalkFacts.

Section MoreScheduleFacts.
Context {num : Type} `{!PyNum num} `{!Backend num}.
Implicit Types (σ : heap num) (ea : EvalAdjustingArgs (num := num)).

(** The outcome in terms of the number of decreases. *)
Lemma EvalAdjustingSchedule_decreases (history : History) ea σ :
  (EvalAdjustingSchedule history ea σ).1
  = (let k := decreases_of ea
                (History_series history (history_mode ea) (metric ea) σ) in
     if py_is_zero (decrease_rate ea) && (0 <? k)%nat
     then Raise ZeroDivisionError
     else Ok (learning_rate default_names
                (with_constant (decreased ea k (ea_constant ea))
                   MultifactorDefaults))).
Proof.
  destruct (EvalAdjustingSchedule_spec history ea σ) as (ys & -> & _).
  unfold schedule_outcome, division_fails. cbn [fst].
  by rewrite adjusted_of_decreased.
Qed.

Lemma decreases_of_constant_series ea (v : num) (xs : list (point num)) :
  1 ≤ steps_to_decrease ea →
  Forall (λ p, snd p = v) xs →
  decreases_of ea xs
  = if stalled ea v v
    then Z.to_nat ((Z.of_nat (length xs) - 2) `div` steps_to_decrease ea)
    else 0%nat.
Proof.
  intros Hstd Hall. destruct (stalled ea v v) eqn:Hv.
  - by apply (decreases_of_constant ea v).
  - destruct (series_cases xs) as [Hshort | (x0 & rest & p & ->)].
    + by apply decreases_of_short.
    + rewrite decreases_of_snoc.
      apply Forall_cons in Hall as [_ Hall].
      apply Forall_app in Hall as [Hrest Hp]. rewrite Forall_singleton in Hp.
      apply walk_decreases_improving; [done | done |].
      simpl. rewrite Hp. apply improving_constant; [done |].
      apply Forall_rev, Forall_fmap. exact Hrest.
Qed.

End MoreScheduleFacts.

(** ** More on exact arithmetic *)

Section MoreRealFacts.
Import RealModel.
Local Open Scope R_scope.
Implicit Types (a : MultifactorArgs (num := R)) (σ : heap R).

Lemma apply_factor_rsqrt_decay a step acc :
  apply_factor a step "rsqrt_decay" acc
  = mret (py_truediv acc (jnp_sqrt (jnp_maximum step (warmup_steps a)))).
Proof. reflexivity. Qed.

Lemma apply_factor_rsqrt_normalized_decay a step acc :
  apply_factor a step "rsqrt_normalized_decay" acc
  = mret (py_truediv (py_mul acc (jnp_sqrt (warmup_steps a)))
            (jnp_sqrt (jnp_maximum step (warmup_steps a)))).
Proof. reflexivity. Qed.

Lemma apply_factor_decay_every a step acc :
  apply_factor a step "decay_every" acc
  = mret (py_mul acc (py_pow (decay_factor a)
                        (py_floordiv step (steps_per_decay a)))).
Proof. reflexivity. Qed.

Lemma factor_multiplier_constant a step :
  factor_multiplier a step "constant" = constant a.
Proof. reflexivity. Qed.

Lemma factor_multiplier_linear_warmup a step :
  factor_multiplier a step "linear_warmup" = Rmin 1 (step / warmup_steps a).
Proof. reflexivity. Qed.

Lemma factor_multiplier_rsqrt_decay a step :
  factor_multiplier a step "rsqrt_decay" = / sqrt (Rmax step (warmup_steps a)).
Proof. reflexivity. Qed.

Lemma factor_multiplier_rsqrt_normalized_decay a step :
  factor_multiplier a step "rsqrt_normalized_decay"
  = sqrt (warmup_steps a) / sqrt (Rmax step (warmup_steps a)).
Proof. reflexivity. Qed.

Lemma factor_multiplier_decay_every a step :
  factor_multiplier a step "decay_every"
  = power (decay_factor a) (IZR (floor (step / steps_per_decay a))).
Proof. reflexivity. Qed.

Lemma factor_multiplier_cosine_decay a step :
  factor_multiplier a step "cosine_decay" = cosine_multiplier a step.
Proof. reflexivity. Qed.

(** Each known factor multiplies the accumulator by its multiplier. *)
Lemma apply_factor_multiplier a step name acc :
  name ∈ known_factors →
  heap_free (apply_factor a step name acc)
    (Ok (acc * factor_multiplier a step name)).
Proof.
  intros Hin σ. unfold known_factors in Hin.
  repeat (apply elem_of_cons in Hin as [-> | Hin]).
  - by rewrite apply_factor_constant, factor_multiplier_constant.
  - by rewrite apply_factor_linear_warmup, factor_multiplier_linear_warmup.
  - by rewrite apply_factor_rsqrt_decay, factor_multiplier_rsqrt_decay.
  - rewrite apply_factor_rsqrt_normalized_decay,
      factor_multiplier_rsqrt_normalized_decay.
    unfold mret, Py_ret. do 2 f_equal. simpl. unfold Rdiv. ring.
  - by rewrite apply_factor_decay_every, factor_multiplier_decay_every.
  - rewrite apply_factor_cosine_decay, factor_multiplier_cosine_decay.
    unfold mret, Py_ret. do 2 f_equal. unfold cosine_multiplier. simpl.
    change (10 ^ Z.of_nat 1)%Z with 10%Z. lra.
  - by apply elem_of_nil in Hin.
Qed.

Lemma formula_value_cons a step x xs :
  formula_value a step (x :: xs)
  = factor_multiplier a step x * formula_value a step xs.
Proof. reflexivity. Qed.

Lemma for_factors_value a step names :
  Forall (λ t, t ∈ known_factors) names →
  ∀ acc,
    heap_free (for_factors a step names acc)
      (Ok (acc * formula_value a step names)).
Proof.
  induction 1 as [| name names Hin Hall IH]; intros acc σ.
  - simpl. unfold mret, Py_ret. do 2 f_equal. lra.
  - cbn [for_factors].
    rewrite (bind_Ok _ _ σ σ _ (apply_factor_multiplier a step name acc Hin σ)).
    rewrite IH, formula_value_cons. do 2 f_equal. ring.
Qed.

Lemma learning_rate_value a step names :
  Forall (λ t, t ∈ known_factors) names →
  heap_free (learning_rate names a step)
    (Ok {[ "learning_rate" := formula_value a step names ]}).
Proof.
  intros Hall.
  pose proof (learning_rate_Ok names a step _
                (for_factors_value a step names Hall (of_Z 1))) as H.
  simpl in H. by rewrite Rmult_1_l in H.
Qed.

Lemma formula_value_app a step xs ys :
  formula_value a step (xs ++ ys)
  = formula_value a step xs * formula_value a step ys.
Proof.
  induction xs as [| x xs IH].
  - change (formula_value a step []) with 1. simpl app. lra.
  - change ((x :: xs) ++ ys) with (x :: (xs ++ ys)).
    rewrite !formula_value_cons, IH. ring.
Qed.

Lemma formula_value_perm a step xs ys :
  xs ≡ₚ ys → formula_value a step xs = formula_value a step ys.
Proof.
  induction 1 as [| x xs ys _ IH | x y xs | xs ys zs _ IH1 _ IH2].
  - done.
  - by rewrite !formula_value_cons, IH.
  - rewrite !formula_value_cons. ring.
  - by rewrite IH1.
Qed.

Lemma value_rsqrt_decay a step :
  formula_value a step ["rsqrt_decay"] = 1 / sqrt (Rmax step (warmup_steps a)).
Proof.
  rewrite formula_value_cons, factor_multiplier_rsqrt_decay.
  change (formula_value a step []) with 1. lra.
Qed.

Lemma value_rsqrt_normalized_decay a step :
  formula_value a step ["rsqrt_normalized_decay"]
  = sqrt (warmup_steps a) / sqrt (Rmax step (warmup_steps a)).
Proof.
  rewrite formula_value_cons, factor_multiplier_rsqrt_normalized_decay.
  change (formula_value a step []) with 1. lra.
Qed.

Lemma value_decay_every a step :
  formula_value a step ["decay_every"]
  = power (decay_factor a) (IZR (floor (step / steps_per_decay a))).
Proof.
  rewrite formula_value_cons, factor_multiplier_decay_every.
  change (formula_value a step []) with 1. lra.
Qed.

Lemma value_default a step :
  formula_value a step default_names
  = constant a * Rmin 1 (step / warmup_steps a)
    / sqrt (Rmax step (warmup_steps a)).
Proof.
  rewrite default_names_eq, !formula_value_cons.
  rewrite factor_multiplier_constant, factor_multiplier_linear_warmup,
    factor_multiplier_rsqrt_decay.
  change (formula_value a step []) with 1. unfold Rdiv. ring.
Qed.

Lemma floor_IZR (n : Z) : floor (IZR n) = n.
Proof. apply floor_eq. lra. Qed.

(** An integer exponent is the iterated product. *)
Lemma power_nat (x : R) (n : nat) : power x (INR n) = x ^ n.
Proof.
  unfold power. rewrite INR_IZR_INZ, floor_IZR.
  destruct (Req_dec_T _ _) as [_ | Hne]; [| done].
  symmetry. apply pow_powerRZ.
Qed.

Lemma floor_quotient (step s : R) (n : nat) :
  0 < s → INR n * s <= step < (INR n + 1) * s →
  IZR (floor (step / s)) = INR n.
Proof.
  intros Hs [Hlo Hhi]. rewrite INR_IZR_INZ. f_equal. apply floor_eq.
  rewrite <- INR_IZR_INZ. split.
  - apply (Rmult_le_reg_r s); [done |]. unfold Rdiv.
    rewrite Rmult_assoc, Rinv_l by lra. lra.
  - apply (Rmult_lt_reg_r s); [done |]. unfold Rdiv.
    rewrite Rmult_assoc, Rinv_l by lra. lra.
Qed.

Lemma floor_succ (r : R) : floor (r + 1) = (floor r + 1)%Z.
Proof.
  apply floor_eq. rewrite plus_IZR. unfold floor.
  destruct (base_Int_part r) as [H1 H2]. lra.
Qed.

Lemma floor_unit (r : R) : 0 <= r < 1 → floor r = 0%Z.
Proof. intros H. apply floor_eq. lra. Qed.

Lemma cosine_multiplier_range a step : 0 <= cosine_multiplier a step <= 1.
Proof.
  unfold cosine_multiplier.
  pose proof (COS_bound
    (PI * (Rmax 0 ((step - warmup_steps a) / steps_per_cycle a)
           - 1 * IZR (floor (Rmax 0 ((step - warmup_steps a)
                                     / steps_per_cycle a) / 1))))) as [Hlo Hhi].
  lra.
Qed.

Lemma cosine_multiplier_warmup a step :
  0 < steps_per_cycle a → step <= warmup_steps a →
  cosine_multiplier a step = 1.
Proof.
  intros Hc Hstep. unfold cosine_multiplier.
  assert ((step - warmup_steps a) / steps_per_cycle a <= 0) as Hneg.
  { apply (Rmult_le_reg_r (steps_per_cycle a)); [done |]. unfold Rdiv.
    rewrite Rmult_assoc, Rinv_l by lra. lra. }
  rewrite Rmax_left by done.
  replace (0 / 1) with 0 by lra. rewrite (floor_unit 0) by lra.
  replace (PI * (0 - 1 * 0)) with 0 by lra. rewrite cos_0. lra.
Qed.

Lemma cosine_multiplier_period a step :
  0 < steps_per_cycle a → warmup_steps a <= step →
  cosine_multiplier a (step + steps_per_cycle a) = cosine_multiplier a step.
Proof.
  intros Hc Hstep. unfold cosine_multiplier.
  set (p := (step - warmup_steps a) / steps_per_cycle a).
  assert (0 <= p) as Hp.
  { unfold p. apply Rmult_le_pos; [lra |].
    apply Rlt_le, Rinv_0_lt_compat, Hc. }
  replace ((step + steps_per_cycle a - warmup_steps a) / steps_per_cycle a)
    with (p + 1) by (unfold p; field; lra).
  rewrite !Rmax_right by lra.
  replace ((p + 1) / 1) with (p / 1 + 1) by lra.
  rewrite floor_succ, plus_IZR.
  do 3 f_equal. lra.
Qed.

(** Within a cycle the multiplier is the half cosine of the progress. *)
Lemma cosine_multiplier_cycle a step :
  0 < steps_per_cycle a →
  warmup_steps a <= step < warmup_steps a + steps_per_cycle a →
  cosine_multiplier a step
  = 1 / 2 * (1 + cos (PI * ((step - warmup_steps a) / steps_per_cycle a))).
Proof.
  intros Hc [Hlo Hhi]. unfold cosine_multiplier.
  set (p := (step - warmup_steps a) / steps_per_cycle a).
  assert (0 <= p < 1) as Hp.
  { unfold p. split.
    - apply Rmult_le_pos; [lra |]. apply Rlt_le, Rinv_0_lt_compat, Hc.
    - apply (Rmult_lt_reg_r (steps_per_cycle a)); [done |]. unfold Rdiv.
      rewrite Rmult_assoc, Rinv_l by lra. lra. }
  rewrite Rmax_right by lra.
  rewrite (floor_unit (p / 1)) by lra.
  do 3 f_equal. lra.
Qed.

Lemma rsqrt_shape (w step : R) :
  0 < w →
  (step <= w → 1 / sqrt (Rmax step w) = 1 / sqrt w) ∧
  (w <= step → 1 / sqrt (Rmax step w) = 1 / sqrt step).
Proof.
  intros Hw. split; intros H.
  - by rewrite Rmax_right.
  - by rewrite Rmax_left.
Qed.

Lemma rsqrt_normalized_shape (w step : R) :
  0 < w →
  (step <= w → sqrt w / sqrt (Rmax step w) = 1) ∧
  (w <= step → sqrt w / sqrt (Rmax step w) = sqrt (w / step)) ∧
  0 < sqrt w / sqrt (Rmax step w) <= 1.
Proof.
  intros Hw.
  assert (0 < sqrt w) as Hsw by (by apply sqrt_lt_R0).
  split_and!.
  - intros H. rewrite Rmax_right by done. field. lra.
  - intros H. rewrite Rmax_left by done. symmetry. apply sqrt_div_alt. lra.
  - apply Rdiv_lt_0_compat; [done |]. apply sqrt_lt_R0.
    apply Rlt_le_trans with w; [done | apply Rmax_r].
  - assert (sqrt w <= sqrt (Rmax step w)) as Hle
      by (apply sqrt_le_1_alt, Rmax_r).
    apply (Rmult_le_reg_r (sqrt (Rmax step w))); [lra |].
    unfold Rdiv. rewrite Rmult_assoc, Rinv_l by lra. lra.
Qed.

Lemma default_shape (c w step : R) :
  0 < w →
  (0 <= step <= w →
   c * Rmin 1 (step / w) / sqrt (Rmax step w) = c * (step / w) / sqrt w) ∧
  (w <= step → c * Rmin 1 (step / w) / sqrt (Rmax step w) = c / sqrt step) ∧
  (0 <= c → 0 <= step →
   0 <= c * Rmin 1 (step / w) / sqrt (Rmax step w) <= c / sqrt w).
Proof.
  intros Hw.
  assert (0 < sqrt w) as Hsw by (by apply sqrt_lt_R0).
  destruct (linear_ramp w step Hw) as [Hramp Hflat].
  assert (0 <= step <= w →
          c * Rmin 1 (step / w) / sqrt (Rmax step w) = c * (step / w) / sqrt w)
    as Hup.
  { intros H. rewrite (Hramp H), Rmax_right by lra. done. }
  assert (w <= step →
          c * Rmin 1 (step / w) / sqrt (Rmax step w) = c / sqrt step) as Hdown.
  { intros H. rewrite (Hflat H), Rmax_left by lra. by rewrite Rmult_1_r. }
  split; [exact Hup |]. split; [exact Hdown |].
  intros Hc Hstep. destruct (Rle_or_lt step w) as [Hle | Hgt].
  - rewrite Hup by lra.
    assert (0 <= step / w <= 1) as [Hq0 Hq1].
    { split.
      - apply Rmult_le_pos; [done |]. apply Rlt_le, Rinv_0_lt_compat, Hw.
      - apply (Rmult_le_reg_r w); [done |]. unfold Rdiv.
        rewrite Rmult_assoc, Rinv_l by lra. lra. }
    assert (0 < / sqrt w) as Hinv by (by apply Rinv_0_lt_compat).
    unfold Rdiv at 1 3 4. split.
    + apply Rmult_le_pos; [by apply Rmult_le_pos | lra].
    + apply Rmult_le_compat_r; [lra |].
      rewrite <- (Rmult_1_r c) at 2. by apply Rmult_le_compat_l.
  - rewrite Hdown by lra.
    assert (sqrt w <= sqrt step) as Hle by (apply sqrt_le_1_alt; lra).
    assert (0 < / sqrt step) as Hinv by (apply Rinv_0_lt_compat; lra).
    unfold Rdiv. split.
    + apply Rmult_le_pos; lra.
    + apply Rmult_le_compat_l; [done |]. apply Rinv_le_contravar; lra.
Qed.

(** The test of line 165 on two equal values. *)
Lemma stalled_tie (ea : EvalAdjustingArgs (num := R)) (v : R) :
  stalled ea v v = true ↔ 0 < v * improvement_margin ea.
Proof.
  unfold stalled. simpl. rewrite bool_decide_eq_true. split; intros H; lra.
Qed.

Lemma divided_grows (c r : R) (k : nat) :
  0 < c → 0 < r <= 1 → c <= c / r ^ k.
Proof.
  intros Hc [Hr0 Hr1].
  assert (0 < r ^ k) as Hpos by (by apply pow_lt).
  assert (r ^ k <= 1) as Hle.
  { rewrite <- (pow1 k). apply pow_incr. lra. }
  apply (Rmult_le_reg_r (r ^ k)); [done |].
  unfold Rdiv. rewrite Rmult_assoc, Rinv_l by lra.
  rewrite Rmult_1_r. rewrite <- (Rmult_1_r c) at 2.
  apply Rmult_le_compat_l; lra.
Qed.

End MoreRealFacts.

(** ** Not-a-number in binary64 *)

Section MoreFloatFacts.
Import Binary64.

Lemma SFltb_nan_l (y : spec_float) : SFltb S754_nan y = false.
Proof. reflexivity. Qed.

Lemma SFltb_nan_r (x : spec_float) : SFltb x S754_nan = false.
Proof. by destruct x as [[] | [] | | [] ? ?]. Qed.

Lemma SFmul_nan_l (y : spec_float) : SFmul prec emax S754_nan y = S754_nan.
Proof. reflexivity. Qed.

End MoreFloatFacts.

(** * Part IV: the claims *)

(** ** Claims that hold in every instance *)

Section Claims.
Context {num : Type} `{!PyNum num} `{!Backend num} `{!LrFunctions (num := num)}.
Implicit Types (σ : heap num) (a : MultifactorArgs (num := num)).
Implicit Types (ea : EvalAdjustingArgs (num := num)).
Implicit Types (history : History).


(** C4: when the series of the history holds fewer than two points,
    [EvalAdjustingSchedule] returns the very schedule that
    [MultifactorSchedule] builds from the unadjusted constant and the
    default formula, so at every step both yield the same outcome. *)
Theorem C4_short_history_unadjusted history ea σ :
  (length (History_series history (history_mode ea) (metric ea) σ) < 2)%nat →
  ∃ sched σ1,
    EvalAdjustingSchedule history ea σ = (Ok sched, σ1) ∧
    MultifactorSchedule (Some history)
      (with_constant (ea_constant ea) MultifactorDefaults) σ1
    = (Ok sched, σ1) ∧
    ∀ step σ',
      sched step σ'
      = learning_rate ["constant"; "linear_warmup"; "rsqrt_decay"]
          (with_constant (ea_constant ea) MultifactorDefaults) step σ'.
Proof.
  intros Hshort. do 2 eexists.
  rewrite EvalAdjustingSchedule_returns by (by apply division_fails_short).
  rewrite adjusted_of_short by done.
  split; [reflexivity |]. split; [apply MultifactorSchedule_default |].
  intros step σ'. by rewrite default_names_eq.
Qed.

(** C6: the walk pops from the list object that [History.get] handed
    out.  Whatever the outcome of [EvalAdjustingSchedule], every list
    object that existed before the call has the same contents after it,
    and every query of the history returns the same series as before. *)
Theorem C6_history_not_mutated history ea σ :
  history_allocated history σ →
  ∃ r σ1,
    EvalAdjustingSchedule history ea σ = (r, σ1) ∧
    (∀ l xs, σ !! l = Some xs → σ1 !! l = Some xs) ∧
    (∀ mode m, History_series history mode m σ1 = History_series history mode m σ).
Proof.
  intros Hwf.
  destruct (EvalAdjustingSchedule_spec history ea σ) as (ys & Hrun & _).
  do 2 eexists. split; [exact Hrun |]. split.
  - intros l xs Hl. by apply fresh_insert_frame.
  - intros mode m. by apply History_series_frame.
Qed.

(** C8: a schedule returned by [MultifactorSchedule] or by
    [EvalAdjustingSchedule] has, at each step, one outcome: every call at
    that step, in whatever state the heap is by then, yields this outcome
    and changes nothing.  ([EvalAdjustingSchedule] does return a schedule
    when the decrease rate is not zero.) *)
Theorem C8_schedules_deterministic :
  (∀ (h : option History) a σ, ∃ sched,
      MultifactorSchedule h a σ = (Ok sched, σ) ∧ deterministic sched) ∧
  (∀ history ea σ sched σ1,
      EvalAdjustingSchedule history ea σ = (Ok sched, σ1) →
      deterministic sched) ∧
  (∀ history ea σ,
      py_is_zero (decrease_rate ea) = false →
      ∃ sched σ1, EvalAdjustingSchedule history ea σ = (Ok sched, σ1)).
Proof.
  split_and!.
  - intros h a σ. eexists. split; [reflexivity |].
    apply learning_rate_deterministic.
  - intros history ea σ sched σ1 Hrun.
    apply EvalAdjustingSchedule_returned in Hrun as [_ ->].
    apply learning_rate_deterministic.
  - intros history ea σ Hrate. do 2 eexists.
    apply EvalAdjustingSchedule_returns. by apply division_fails_nonzero.
Qed.

(** C9: for a series of two or more points with oldest point [x0], the
    outcome of [EvalAdjustingSchedule] is the same for any other oldest
    point.  When a schedule is returned, the walk has left exactly [x0] in
    its list object: the oldest point is never popped, hence never
    compared, and the constant of the schedule is the result of the walk
    that starts at the newest value and sees the values strictly between
    the oldest and the newest point.  For a series of exactly two points
    the walk has nothing to see and the schedule of the unadjusted constant
    is returned. *)
Theorem C9_oldest_point_never_compared history ea σ x0 rest :
  History_series history (history_mode ea) (metric ea) σ = x0 :: rest →
  (1 ≤ length rest)%nat →
  ∃ r,
    (EvalAdjustingSchedule history ea σ).1 = r ∧
    (∀ history' σ' x0',
       History_series history' (history_mode ea) (metric ea) σ' = x0' :: rest →
       (EvalAdjustingSchedule history' ea σ').1 = r) ∧
    (∀ sched, r = Ok sched →
       EvalAdjustingSchedule history ea σ
       = (Ok sched, <[fresh (dom σ) := [x0]]> σ) ∧
       ∀ middle newest, rest = middle ++ [newest] →
         sched = learning_rate default_names
                   (with_constant
                      (adjusted (walk ea (walk_init ea (snd newest))
                                   (rev (snd <$> middle))))
                      MultifactorDefaults)) ∧
    (length rest = 1%nat →
     r = Ok (learning_rate default_names
               (with_constant (ea_constant ea) MultifactorDefaults))).
Proof.
  intros Hxs Hlen. exists (schedule_outcome ea (x0 :: rest)).
  destruct (EvalAdjustingSchedule_spec history ea σ) as (ys & Hrun & Hys).
  rewrite Hxs in Hrun, Hys. split_and!.
  - by rewrite Hrun.
  - intros history' σ' x0' Hxs'.
    destruct (EvalAdjustingSchedule_spec history' ea σ') as (ys' & -> & _).
    rewrite Hxs'. simpl. apply schedule_outcome_oldest.
  - intros sched Hsched. unfold schedule_outcome in Hsched.
    destruct (division_fails ea (x0 :: rest)) eqn:Hfail; [discriminate Hsched |].
    apply Ok_inj in Hsched as <-. split.
    + rewrite Hrun, (Hys eq_refl), left_over_long by done.
      unfold schedule_outcome. by rewrite Hfail.
    + intros middle newest ->. by rewrite adjusted_of_snoc.
  - intros Hone. destruct rest as [| p [| q rest]]; simpl in Hone; try lia.
    change [x0; p] with (x0 :: [] ++ [p]).
    unfold schedule_outcome, division_fails.
    rewrite adjusted_of_snoc, decreases_of_snoc. simpl.
    by rewrite andb_false_r.
Qed.


End Claims.

(** ** Claims on the instances *)

Section InstanceClaims.
Import RealModel Binary64.

(** C2: with four points of metric value 0.5, [steps_to_decrease] 2,
    [decrease_rate] 2.0, constant 1.0 and the default margin, the schedule
    is built from the constant 0.5.  The first comparison stalls (counter
    1, constant still 1.0), the second one reaches the bound: the constant
    is halved and the counter reset; the oldest point stays in the list
    object, so there is no further comparison and no second decrease. *)
Theorem C2_four_stalled_points_halve_once (E : Elementary)
    (history : History) (σ : heap spec_float) (s1 s2 s3 s4 : Z)
    (mode m : string) :
  History_series history mode m σ
  = [(s1, half); (s2, half); (s3, half); (s4, half)] →
  EvalAdjustingSchedule (Backend0 := backend E) history (stalled_args mode m) σ
  = (Ok (learning_rate (Backend0 := backend E) default_names
           (with_constant half MultifactorDefaults)),
     <[fresh (dom σ) := [(s1, half)]]> σ) ∧
  (∀ σ' : heap spec_float,
     loop_body (stalled_args mode m) half (walk_init (stalled_args mode m) half) σ'
     = (Ok {| cur := half; steps_without_improvement := 1; adjusted := one |},
        σ')) ∧
  (∀ σ' : heap spec_float,
     loop_body (stalled_args mode m) half
       {| cur := half; steps_without_improvement := 1; adjusted := one |} σ'
     = (Ok {| cur := half; steps_without_improvement := 0; adjusted := half |},
        σ')).
Proof.
  intros Hxs. split_and!.
  - rewrite EvalAdjustingSchedule_returns
      by (by apply division_fails_nonzero).
    simpl history_mode. simpl metric. rewrite Hxs. reflexivity.
  - intros σ'. by rewrite loop_body_spec.
  - intros σ'. by rewrite loop_body_spec.
Qed.

(** C3, as amended: with factors ["cosine_decay"], [steps_per_cycle]
    100000 and [warmup_steps] 0 the schedule returns
    0.5 (1 + cos (pi (progress mod 1))) with progress
    max (0, (step - warmup_steps) / steps_per_cycle), which is 1 at step 0,
    1/2 at step 50000 (half of the cycle) and 1 again at step 100000. *)
Theorem C3_cosine_decay_values (h : option History) (σ : heap R) :
  ∃ sched,
    MultifactorSchedule h cosine_args σ = (Ok sched, σ) ∧
    (∀ step σ',
       sched step σ'
       = (Ok {[ "learning_rate" := cosine_multiplier cosine_args step ]}, σ')) ∧
    cosine_multiplier cosine_args 0 = 1%R ∧
    cosine_multiplier cosine_args 50000 = (1 / 2)%R ∧
    cosine_multiplier cosine_args 100000 = 1%R.
Proof.
  eexists. split; [reflexivity |].
  split; [intros step σ'; apply cosine_schedule |].
  auto using cosine_multiplier_0, cosine_multiplier_half,
    cosine_multiplier_full.
Qed.

(** C3 as stated fails at the half cycle: the value returned at step
    50000 is not approximately 0. *)
Lemma C3_counterexample_half_cycle :
  ¬ ∃ sched v,
      MultifactorSchedule None cosine_args ∅ = (Ok sched, ∅) ∧
      sched 50000%R ∅ = (Ok {[ "learning_rate" := v ]}, ∅) ∧
      approx v 0.
Proof.
  intros (sched & v & Hsched & Hv & Happrox).
  injection Hsched as <-.
  change (parse_factors (factors cosine_args)) with ["cosine_decay"] in Hv.
  rewrite cosine_schedule, cosine_multiplier_half in Hv.
  apply returned_dict_inj in Hv as <-.
  unfold approx in Happrox. rewrite Rabs_pos_eq in Happrox; lra.
Qed.


(** C7: the factor [linear_warmup] multiplies the accumulator by
    min (1, step / warmup_steps).  In exact arithmetic the schedule of the
    formula ["linear_warmup"] returns this minimum, which is step /
    warmup_steps up to warmup_steps and 1 from there on; in binary64 with
    [warmup_steps] 400 it returns 0 at step 0 and 1.0 at steps 400 and
    800. *)
Theorem C7_linear_warmup_ramp :
  (∀ (num : Type) (P : PyNum num) (B : Backend num)
     (a : MultifactorArgs) (step acc : num),
      apply_factor a step "linear_warmup" acc
      = mret (py_mul acc
                (jnp_minimum (of_Z 1) (py_truediv step (warmup_steps a))))) ∧
  (∀ (w : R) (h : option History) (σ : heap R), ∃ sched,
      MultifactorSchedule h (linear_warmup_args w) σ = (Ok sched, σ) ∧
      ∀ step σ',
        sched step σ' = (Ok {[ "learning_rate" := Rmin 1 (step / w) ]}, σ')) ∧
  (∀ w step : R, (0 < w)%R →
      ((0 <= step <= w)%R → Rmin 1 (step / w) = (step / w)%R) ∧
      ((w <= step)%R → Rmin 1 (step / w) = 1%R)) ∧
  (∀ (E : Elementary) (h : option History) (σ : heap spec_float), ∃ sched,
      MultifactorSchedule (Backend0 := backend E) h linear_warmup_400 σ
      = (Ok sched, σ) ∧
      ∀ σ',
        sched (of_Z 0) σ' = (Ok {[ "learning_rate" := of_Z 0 ]}, σ') ∧
        sched (of_Z 400) σ' = (Ok {[ "learning_rate" := to_float32 one ]}, σ') ∧
        sched (of_Z 800) σ' = (Ok {[ "learning_rate" := to_float32 one ]}, σ')).
Proof.
  split; [intros; apply apply_factor_linear_warmup |].
  split.
  { intros w h σ. eexists. split; [reflexivity |].
    intros step σ'. apply linear_warmup_schedule. }
  split; [apply linear_ramp |].
  intros E h σ. eexists. split; [reflexivity |].
  intros σ'.
  change (parse_factors (factors linear_warmup_400)) with ["linear_warmup"].
  split_and!;
    rewrite (learning_rate_one_factor _ "linear_warmup" _ _ σ'
               (apply_factor_linear_warmup _ _ (of_Z 1)));
    reflexivity.
Qed.



End InstanceClaims.

(** ** The claims at concrete inputs *)

Section Witnesses.
Import RealModel Binary64.


Lemma C2_witness :
  History_series (one_series "eval" "metrics/accuracy")
    "eval" "metrics/accuracy" four_stalled
  = [(100, half); (200, half); (300, half); (400, half)] ∧
  EvalAdjustingSchedule (Backend0 := backend unmodelled)
    (one_series "eval" "metrics/accuracy")
    (stalled_args "eval" "metrics/accuracy") four_stalled
  = (Ok (learning_rate (Backend0 := backend unmodelled) default_names
           (with_constant half MultifactorDefaults)),
     <[fresh (dom four_stalled) := [(100, half)]]> four_stalled).
Proof.
  assert (History_series (one_series "eval" "metrics/accuracy")
            "eval" "metrics/accuracy" four_stalled
          = [(100, half); (200, half); (300, half); (400, half)]) as Hxs
    by apply one_series_series.
  split; [exact Hxs |].
  exact (proj1 (C2_four_stalled_points_halve_once unmodelled _ _ _ _ _ _ _ _ Hxs)).
Defined.

Lemma C4_witness :
  (length (History_series (one_series "eval" "metrics/accuracy")
             "eval" "metrics/accuracy" (one_series_heap one_point)) < 2)%nat ∧
  ∃ sched σ1,
    EvalAdjustingSchedule (one_series "eval" "metrics/accuracy")
      EvalAdjustingDefaults (one_series_heap one_point) = (Ok sched, σ1) ∧
    MultifactorSchedule (Some (one_series "eval" "metrics/accuracy"))
      (with_constant (ea_constant EvalAdjustingDefaults) MultifactorDefaults) σ1
    = (Ok sched, σ1) ∧
    ∀ step σ',
      sched step σ'
      = learning_rate ["constant"; "linear_warmup"; "rsqrt_decay"]
          (with_constant (ea_constant EvalAdjustingDefaults) MultifactorDefaults)
          step σ'.
Proof.
  assert (length (History_series (one_series "eval" "metrics/accuracy")
                    "eval" "metrics/accuracy" (one_series_heap one_point)) < 2)%nat
    as Hshort by (rewrite one_series_series; simpl; lia).
  split; [exact Hshort |].
  exact (C4_short_history_unadjusted (one_series "eval" "metrics/accuracy")
           EvalAdjustingDefaults (one_series_heap one_point) Hshort).
Defined.


Lemma C6_witness :
  history_allocated (one_series "eval" "metrics/accuracy")
    (one_series_heap two_points) ∧
  ∃ r σ1,
    EvalAdjustingSchedule (one_series "eval" "metrics/accuracy")
      EvalAdjustingDefaults (one_series_heap two_points) = (r, σ1) ∧
    (∀ l xs, one_series_heap two_points !! l = Some xs → σ1 !! l = Some xs) ∧
    (∀ mode m,
       History_series (one_series "eval" "metrics/accuracy") mode m σ1
       = History_series (one_series "eval" "metrics/accuracy") mode m
           (one_series_heap two_points)).
Proof.
  split; [apply one_series_allocated |].
  apply (C6_history_not_mutated (one_series "eval" "metrics/accuracy")
           EvalAdjustingDefaults (one_series_heap two_points)).
  apply one_series_allocated.
Defined.

Lemma C7_witness :
  (0 < 400)%R ∧ (0 <= 200 <= 400)%R ∧ Rmin 1 (200 / 400) = (200 / 400)%R.
Proof.
  assert (0 < 400)%R as Hw by lra.
  assert (0 <= 200 <= 400)%R as Hstep by lra.
  split; [exact Hw |]. split; [exact Hstep |].
  destruct C7_linear_warmup_ramp as (_ & _ & Hramp & _).
  exact (proj1 (Hramp 400%R 200%R Hw) Hstep).
Defined.

Lemma C8_witness :
  py_is_zero (decrease_rate (EvalAdjustingDefaults (num := R))) = false ∧
  ∃ sched σ1,
    EvalAdjustingSchedule (one_series "eval" "metrics/accuracy")
      EvalAdjustingDefaults (one_series_heap two_points) = (Ok sched, σ1) ∧
    deterministic sched.
Proof.
  split; [exact default_rate_nonzero |].
  destruct (C8_schedules_deterministic (num := R)) as (_ & Hdet & Hret).
  destruct (Hret (one_series "eval" "metrics/accuracy") EvalAdjustingDefaults
              (one_series_heap two_points) default_rate_nonzero)
    as (sched & σ1 & Hrun).
  exists sched, σ1. split; [exact Hrun |]. exact (Hdet _ _ _ _ _ Hrun).
Defined.

Lemma C9_witness :
  History_series (one_series "eval" "metrics/accuracy")
    "eval" "metrics/accuracy" (one_series_heap two_points)
  = (100, (1 / 2)%R) :: [(200, (3 / 5)%R)] ∧
  (EvalAdjustingSchedule (one_series "eval" "metrics/accuracy")
     EvalAdjustingDefaults (one_series_heap two_points)).1
  = Ok (learning_rate default_names
          (with_constant (ea_constant EvalAdjustingDefaults)
             MultifactorDefaults)).
Proof.
  assert (History_series (one_series "eval" "metrics/accuracy")
            "eval" "metrics/accuracy" (one_series_heap two_points)
          = (100, (1 / 2)%R) :: [(200, (3 / 5)%R)]) as Hxs
    by apply one_series_series.
  assert (1 ≤ length [(200, (3 / 5)%R)])%nat as Hlen by (simpl; lia).
  split; [exact Hxs |].
  destruct (C9_oldest_point_never_compared
              (one_series "eval" "metrics/accuracy") EvalAdjustingDefaults
              (one_series_heap two_points) (100, (1 / 2)%R) [(200, (3 / 5)%R)]
              Hxs Hlen) as (r & Hrun & _ & _ & Htwo).
  rewrite Hrun. apply Htwo. reflexivity.
Defined.


End Witnesses.

(** * Part V: further properties of the module *)

(** ** Parsing the formula *)

Section ParsingProperties.

(** X1: the parsed formula has one token more than the factors string has
    stars, so it is never empty; no token contains a star, and none
    begins or ends with whitespace. *)
Theorem X1_parsed_tokens (fs : string) :
  length (parse_factors fs) = S (count_char "*" fs) ∧
  ∀ t : string, t ∈ parse_factors fs →
    count_char "*" t = 0%nat ∧
    starts_with_space t = false ∧ ends_with_space t = false.
Proof.
  unfold parse_factors. split.
  - by rewrite length_fmap, split_length.
  - intros t Ht. apply list_elem_of_fmap in Ht as (f & -> & Hf).
    pose proof (split_fields_free "*" fs) as Hall.
    rewrite Forall_forall in Hall. split_and!.
    + apply strip_free, Hall, Hf.
    + apply rstrip_starts, lstrip_starts.
    + apply rstrip_ends.
Qed.

(** X2: splitting loses nothing: joining the fields with the separator
    gives the string back; and splitting the join of a non-empty list of
    separator-free fields gives the fields back. *)
Theorem X2_split_join_round_trip (sep : ascii) :
  (∀ s : string, join (String sep "") (PyStr.split sep s) = s) ∧
  (∀ ts : list string,
     ts ≠ [] → Forall (λ t, count_char sep t = 0%nat) ts →
     PyStr.split sep (join (String sep "") ts) = ts).
Proof. split; [apply join_split | apply split_join]. Qed.

(** X3: whitespace around the stars is insignificant: padding every
    field of a formula with whitespace on either side parses to the
    stripped fields, as the unpadded formula does. *)
Theorem X3_whitespace_insignificant (l r : string) (ts : list string) :
  all_space l = true → all_space r = true → ts ≠ [] →
  Forall (λ t, count_char "*" t = 0%nat) ts →
  parse_factors (join "*" ((λ t, l +:+ t +:+ r) <$> ts)) = PyStr.strip <$> ts ∧
  parse_factors (join "*" ts) = PyStr.strip <$> ts.
Proof.
  intros Hl Hr Hne Hfree. unfold parse_factors. split.
  - rewrite split_join.
    + rewrite <- list_fmap_compose. apply list_fmap_ext.
      intros i t _. simpl. by apply strip_padded.
    + by destruct ts.
    + apply Forall_fmap. eapply Forall_impl; [exact Hfree |].
      intros t Ht. simpl. rewrite !count_char_app, Ht.
      by rewrite (all_space_free l Hl), (all_space_free r Hr).
  - by rewrite split_join.
Qed.

End ParsingProperties.

(** ** The factor evaluator *)

Section EvaluatorProperties.
Context {num : Type} `{!PyNum num} `{!Backend num}.
Implicit Types (σ : heap num) (a : MultifactorArgs (num := num)).

(** X4: an empty factors string, or one of whitespace only, parses to
    the single empty token: [MultifactorSchedule] returns a schedule, and
    every call of it raises the error of the unknown factor with the empty
    name. *)
Theorem X4_blank_formula_raises (h : option History) a σ :
  all_space (factors a) = true →
  parse_factors (factors a) = [""] ∧
  ∃ sched,
    MultifactorSchedule h a σ = (Ok sched, σ) ∧
    ∀ step σ', sched step σ' = (Raise (unknown_factor ""), σ').
Proof.
  intros Hblank. pose proof (parse_factors_blank _ Hblank) as Hparse.
  split; [exact Hparse |].
  exists (learning_rate (parse_factors (factors a)) a). split; [done |].
  intros step σ'. rewrite Hparse.
  apply learning_rate_Raise. intros σ1. simpl.
  apply bind_Raise, apply_factor_unknown, empty_name_unknown.
Qed.


End EvaluatorProperties.

(** ** The walk over the history *)

Section WalkProperties.
Context {num : Type} `{!PyNum num} `{!Backend num}.
Implicit Types (σ : heap num) (ea : EvalAdjustingArgs (num := num)).
Implicit Types (history : History).

(** X6: each decrease uses up [steps_to_decrease] comparisons of its
    own.  The number k of decreases behind the outcome of
    [EvalAdjustingSchedule] satisfies k * steps_to_decrease <= n - 2 for a
    series of n points; with fewer than steps_to_decrease + 2 points there
    is no decrease and the schedule of the unadjusted constant is
    returned, whatever the decrease rate. *)
Theorem X6_decreases_need_points history ea σ :
  ∃ k : nat,
    Z.of_nat k * steps_to_decrease ea
    ≤ Z.of_nat
        (length (History_series history (history_mode ea) (metric ea) σ) - 2) ∧
    (EvalAdjustingSchedule history ea σ).1
    = (if py_is_zero (decrease_rate ea) && (0 <? k)%nat
       then Raise ZeroDivisionError
       else Ok (learning_rate default_names
                  (with_constant (decreased ea k (ea_constant ea))
                     MultifactorDefaults))) ∧
    (Z.of_nat (length (History_series history (history_mode ea) (metric ea) σ))
     - 2 < steps_to_decrease ea →
     (EvalAdjustingSchedule history ea σ).1
     = Ok (learning_rate default_names
             (with_constant (ea_constant ea) MultifactorDefaults))).
Proof.
  set (xs := History_series history (history_mode ea) (metric ea) σ).
  exists (decreases_of ea xs).
  pose proof (decreases_of_bound ea xs) as Hbound.
  pose proof (EvalAdjustingSchedule_decreases history ea σ) as Hrun.
  cbn zeta in Hrun. fold xs in Hrun.
  split_and!; [exact Hbound | exact Hrun |].
  intros Hfew. rewrite Hrun.
  assert (decreases_of ea xs = 0%nat) as ->.
  { destruct (Z_le_gt_dec 1 (steps_to_decrease ea)) as [Hstd | Hstd].
    - destruct (decreases_of ea xs) as [| k]; [done |]. exfalso. nia.
    - apply decreases_of_short. lia. }
  simpl. by rewrite andb_false_r.
Qed.

(** X7: with [steps_to_decrease] zero or negative the test of line 170
    succeeds at every turn: the constant is divided once for each point but
    the newest and the oldest, and a zero rate raises as soon as there are
    three points. *)
Theorem X7_nonpositive_bound_decreases_each_turn history ea σ :
  steps_to_decrease ea ≤ 0 →
  (EvalAdjustingSchedule history ea σ).1
  = (if py_is_zero (decrease_rate ea)
        && (2 <? length (History_series history (history_mode ea)
                           (metric ea) σ))%nat
     then Raise ZeroDivisionError
     else Ok (learning_rate default_names
                (with_constant
                   (decreased ea
                      (length (History_series history (history_mode ea)
                                 (metric ea) σ) - 2)
                      (ea_constant ea))
                   MultifactorDefaults))).
Proof.
  intros Hstd. rewrite EvalAdjustingSchedule_decreases. cbn zeta.
  set (xs := History_series history (history_mode ea) (metric ea) σ).
  rewrite decreases_of_nonpositive by done.
  replace (0 <? length xs - 2)%nat with (2 <? length xs)%nat; [done |].
  destruct (Nat.ltb_spec 2 (length xs)); symmetry;
    [apply Nat.ltb_lt | apply Nat.ltb_ge]; lia.
Qed.

(** X8: when, from the newest point back to the second oldest, no value
    is below its predecessor scaled by the margin, the test of line 165
    fails at every turn and the schedule of the unadjusted constant is
    returned (for a positive [steps_to_decrease]). *)
Theorem X8_improving_series_unadjusted history ea σ x0 rest p :
  History_series history (history_mode ea) (metric ea) σ = x0 :: rest ++ [p] →
  1 ≤ steps_to_decrease ea →
  improving ea (snd p) (rev (snd <$> rest)) = true →
  (EvalAdjustingSchedule history ea σ).1
  = Ok (learning_rate default_names
          (with_constant (ea_constant ea) MultifactorDefaults)).
Proof.
  intros Hxs Hstd Himp. rewrite EvalAdjustingSchedule_decreases. cbn zeta.
  rewrite Hxs, decreases_of_snoc, walk_decreases_improving by done.
  simpl. by rewrite andb_false_r.
Qed.

(** X9: on a series of n points of one and the same value v, with a
    positive [steps_to_decrease]: if the test of line 165 succeeds on v
    against itself, there is one decrease for every [steps_to_decrease]
    comparisons, (n - 2) // steps_to_decrease in all; if it fails, there is
    none. *)
Theorem X9_constant_series history ea σ (v : num) :
  1 ≤ steps_to_decrease ea →
  Forall (λ p, snd p = v)
    (History_series history (history_mode ea) (metric ea) σ) →
  (EvalAdjustingSchedule history ea σ).1
  = (let n := length (History_series history (history_mode ea) (metric ea) σ) in
     let k := if stalled ea v v
              then Z.to_nat ((Z.of_nat n - 2) `div` steps_to_decrease ea)
              else 0%nat in
     if py_is_zero (decrease_rate ea) && (0 <? k)%nat
     then Raise ZeroDivisionError
     else Ok (learning_rate default_names
                (with_constant (decreased ea k (ea_constant ea))
                   MultifactorDefaults))).
Proof.
  intros Hstd Hall. rewrite EvalAdjustingSchedule_decreases. cbn zeta.
  by rewrite (decreases_of_constant_series ea v _ Hstd Hall).
Qed.

(** X10: the walk reads only the values of the points: two series with
    the same values, whatever their step numbers, give the same outcome.
    [steps_to_decrease] thus counts evaluation points, not training
    steps. *)
Theorem X10_step_numbers_ignored history history' ea σ σ' :
  snd <$> History_series history (history_mode ea) (metric ea) σ
  = snd <$> History_series history' (history_mode ea) (metric ea) σ' →
  (EvalAdjustingSchedule history ea σ).1
  = (EvalAdjustingSchedule history' ea σ').1.
Proof.
  intros Hvalues.
  destruct (EvalAdjustingSchedule_spec history ea σ) as (ys & -> & _).
  destruct (EvalAdjustingSchedule_spec history' ea σ') as (ys' & -> & _).
  cbn [fst].
  unfold schedule_outcome, division_fails, adjusted_of, decreases_of.
  by rewrite (newest_value_values _ _ Hvalues), (seen_values _ _ Hvalues).
Qed.

(** X11: [EvalAdjustingSchedule] raises nothing but [ZeroDivisionError],
    and this only when the decrease rate is zero and the series has three
    points or more: the loop ends before [pop] could meet an empty list,
    and no other operation of the walk fails. *)
Theorem X11_only_zero_division_raised history ea σ (e : exn) σ1 :
  EvalAdjustingSchedule history ea σ = (Raise e, σ1) →
  e = ZeroDivisionError ∧
  py_is_zero (decrease_rate ea) = true ∧
  (3 ≤ length (History_series history (history_mode ea) (metric ea) σ))%nat.
Proof.
  intros Hrun. apply (f_equal fst) in Hrun.
  rewrite EvalAdjustingSchedule_decreases in Hrun. cbn zeta in Hrun.
  cbn [fst] in Hrun.
  set (xs := History_series history (history_mode ea) (metric ea) σ) in *.
  pose proof (decreases_of_le ea xs) as Hle.
  destruct (py_is_zero (decrease_rate ea)); [| discriminate Hrun].
  destruct (0 <? decreases_of ea xs)%nat eqn:Hk; [| discriminate Hrun].
  apply Nat.ltb_lt in Hk. simpl in Hrun. injection Hrun as <-.
  split_and!; [done | done | lia].
Qed.

End WalkProperties.

(** ** The factors in exact arithmetic *)

Section RealProperties.
Import RealModel.
Implicit Types (a : MultifactorArgs (num := R)) (σ : heap R).
Implicit Types (ea : EvalAdjustingArgs (num := R)).

(** X12: in exact arithmetic the value of a formula is the product of
    the values of its parts: the schedule of the concatenation of two
    formulas of known factors returns the product of what the two
    schedules return. *)
Theorem X12_formula_concatenation a (xs ys : list string) (step : R) σ :
  Forall (λ t, t ∈ known_factors) xs →
  Forall (λ t, t ∈ known_factors) ys →
  ∃ u v : R,
    learning_rate xs a step σ = (Ok {[ "learning_rate" := u ]}, σ) ∧
    learning_rate ys a step σ = (Ok {[ "learning_rate" := v ]}, σ) ∧
    learning_rate (xs ++ ys) a step σ
    = (Ok {[ "learning_rate" := (u * v)%R ]}, σ).
Proof.
  intros Hxs Hys.
  exists (formula_value a step xs), (formula_value a step ys). split_and!.
  - by apply learning_rate_value.
  - by apply learning_rate_value.
  - rewrite <- formula_value_app. apply learning_rate_value.
    by apply Forall_app.
Qed.

(** X13: in exact arithmetic the order of the factors does not matter:
    two formulas of known factors that are permutations of each other give
    schedules that return the same dict at every step. *)
Theorem X13_factor_order_irrelevant a (names names' : list string)
    (step : R) σ :
  names ≡ₚ names' →
  Forall (λ t, t ∈ known_factors) names →
  learning_rate names a step σ = learning_rate names' a step σ.
Proof.
  intros Hperm Hall.
  rewrite (learning_rate_value a step names Hall σ).
  rewrite (learning_rate_value a step names') by (by rewrite <- Hperm).
  by rewrite (formula_value_perm a step _ _ Hperm).
Qed.

(** X14: the factor [rsqrt_decay] alone, in exact arithmetic and for a
    positive [warmup_steps]: the schedule returns 1 / sqrt (warmup_steps)
    up to [warmup_steps] and 1 / sqrt (step) from there on. *)
Theorem X14_rsqrt_decay_schedule (h : option History) a σ :
  parse_factors (factors a) = ["rsqrt_decay"] →
  (0 < warmup_steps a)%R →
  ∃ sched,
    MultifactorSchedule h a σ = (Ok sched, σ) ∧
    ∀ (step : R) σ',
      ((step <= warmup_steps a)%R →
       sched step σ'
       = (Ok {[ "learning_rate" := (1 / sqrt (warmup_steps a))%R ]}, σ')) ∧
      ((warmup_steps a <= step)%R →
       sched step σ' = (Ok {[ "learning_rate" := (1 / sqrt step)%R ]}, σ')).
Proof.
  intros Hparse Hw.
  exists (learning_rate (parse_factors (factors a)) a). split; [done |].
  intros step σ'. rewrite Hparse.
  rewrite (learning_rate_value a step ["rsqrt_decay"]) by (repeat constructor; in_list).
  rewrite value_rsqrt_decay.
  destruct (rsqrt_shape (warmup_steps a) step Hw) as [Hflat Hdecay].
  split; intros Hstep; [by rewrite Hflat | by rewrite Hdecay].
Qed.

(** X15: the factor [rsqrt_normalized_decay] alone, in exact arithmetic
    and for a positive [warmup_steps]: the schedule returns 1 up to
    [warmup_steps] and sqrt (warmup_steps / step) from there on; its value
    is always in (0, 1]. *)
Theorem X15_rsqrt_normalized_decay_schedule (h : option History) a σ :
  parse_factors (factors a) = ["rsqrt_normalized_decay"] →
  (0 < warmup_steps a)%R →
  ∃ (sched : Schedule) (value : R → R),
    MultifactorSchedule h a σ = (Ok sched, σ) ∧
    (∀ (step : R) σ',
       sched step σ' = (Ok {[ "learning_rate" := value step ]}, σ')) ∧
    (∀ step : R, (step <= warmup_steps a)%R → value step = 1%R) ∧
    (∀ step : R, (warmup_steps a <= step)%R →
       value step = sqrt (warmup_steps a / step)) ∧
    (∀ step : R, (0 < value step <= 1)%R).
Proof.
  intros Hparse Hw.
  exists (learning_rate (parse_factors (factors a)) a),
    (λ step, (sqrt (warmup_steps a) / sqrt (Rmax step (warmup_steps a)))%R).
  split; [done |]. split_and!.
  - intros step σ'. rewrite Hparse.
    rewrite (learning_rate_value a step ["rsqrt_normalized_decay"])
      by (repeat constructor; in_list).
    by rewrite value_rsqrt_normalized_decay.
  - intros step. by apply rsqrt_normalized_shape.
  - intros step. by apply rsqrt_normalized_shape.
  - intros step. by apply rsqrt_normalized_shape.
Qed.

(** X16: the factor [decay_every] alone, in exact arithmetic and for a
    positive [steps_per_decay]: on the n-th interval of [steps_per_decay]
    steps (counted from 0) the schedule returns [decay_factor] to the
    power n. *)
Theorem X16_decay_every_schedule (h : option History) a σ :
  parse_factors (factors a) = ["decay_every"] →
  (0 < steps_per_decay a)%R →
  ∃ sched,
    MultifactorSchedule h a σ = (Ok sched, σ) ∧
    ∀ (n : nat) (step : R) σ',
      (INR n * steps_per_decay a <= step < (INR n + 1) * steps_per_decay a)%R →
      sched step σ' = (Ok {[ "learning_rate" := (decay_factor a ^ n)%R ]}, σ').
Proof.
  intros Hparse Hs.
  exists (learning_rate (parse_factors (factors a)) a). split; [done |].
  intros n step σ' Hstep. rewrite Hparse.
  rewrite (learning_rate_value a step ["decay_every"])
    by (repeat constructor; in_list).
  rewrite value_decay_every, (floor_quotient step _ n Hs Hstep).
  by rewrite power_nat.
Qed.

(** X17: the factor [cosine_decay] alone, in exact arithmetic and for a
    positive [steps_per_cycle]: the value is always between 0 and 1; it is
    1 up to [warmup_steps]; within the first cycle it is
    0.5 (1 + cos (pi (step - warmup_steps) / steps_per_cycle)); and from
    [warmup_steps] on it repeats with period [steps_per_cycle]. *)
Theorem X17_cosine_decay_cycles (h : option History) a σ :
  parse_factors (factors a) = ["cosine_decay"] →
  (0 < steps_per_cycle a)%R →
  ∃ (sched : Schedule) (value : R → R),
    MultifactorSchedule h a σ = (Ok sched, σ) ∧
    (∀ (step : R) σ',
       sched step σ' = (Ok {[ "learning_rate" := value step ]}, σ')) ∧
    (∀ step : R, (0 <= value step <= 1)%R) ∧
    (∀ step : R, (step <= warmup_steps a)%R → value step = 1%R) ∧
    (∀ step : R,
       (warmup_steps a <= step < warmup_steps a + steps_per_cycle a)%R →
       value step
       = (1 / 2 * (1 + cos (PI * ((step - warmup_steps a)
                                  / steps_per_cycle a))))%R) ∧
    (∀ step : R, (warmup_steps a <= step)%R →
       value (step + steps_per_cycle a)%R = value step).
Proof.
  intros Hparse Hc.
  exists (learning_rate (parse_factors (factors a)) a), (cosine_multiplier a).
  split; [done |]. split_and!.
  - intros step σ'. rewrite Hparse. apply cosine_schedule.
  - apply cosine_multiplier_range.
  - intros step. by apply cosine_multiplier_warmup.
  - intros step. by apply cosine_multiplier_cycle.
  - intros step. by apply cosine_multiplier_period.
Qed.

(** X18: the default formula in exact arithmetic, for a positive
    [warmup_steps]: the schedule rises linearly, as
    constant (step / warmup_steps) / sqrt (warmup_steps), up to
    [warmup_steps] and falls as constant / sqrt (step) from there on; for a
    constant that is not negative its value never exceeds
    constant / sqrt (warmup_steps), the value at [warmup_steps]. *)
Theorem X18_default_schedule_shape (h : option History) a σ :
  parse_factors (factors a) = default_names →
  (0 < warmup_steps a)%R →
  ∃ (sched : Schedule) (value : R → R),
    MultifactorSchedule h a σ = (Ok sched, σ) ∧
    (∀ (step : R) σ',
       sched step σ' = (Ok {[ "learning_rate" := value step ]}, σ')) ∧
    (∀ step : R, (0 <= step <= warmup_steps a)%R →
       value step
       = (constant a * (step / warmup_steps a) / sqrt (warmup_steps a))%R) ∧
    (∀ step : R, (warmup_steps a <= step)%R →
       value step = (constant a / sqrt step)%R) ∧
    (∀ step : R, (0 <= constant a)%R → (0 <= step)%R →
       (0 <= value step <= constant a / sqrt (warmup_steps a))%R).
Proof.
  intros Hparse Hw.
  exists (learning_rate (parse_factors (factors a)) a),
    (λ step, (constant a * Rmin 1 (step / warmup_steps a)
              / sqrt (Rmax step (warmup_steps a)))%R).
  split; [done |]. split_and!.
  - intros step σ'. rewrite Hparse.
    rewrite (learning_rate_value a step default_names).
    + by rewrite value_default.
    + apply Forall_forall. intros t Ht. by apply default_names_known.
  - intros step. by apply default_shape.
  - intros step. by apply default_shape.
  - intros step. by apply default_shape.
Qed.


(** X20: in exact arithmetic, dividing by a rate between 0 and 1 raises
    the constant: for a positive constant and 0 < decrease_rate <= 1 the
    constant of the returned schedule is constant / decrease_rate ^ k for
    the number k of decreases, and it is at least the input constant. *)
Theorem X20_small_rate_raises_constant (history : History) ea σ :
  (0 < ea_constant ea)%R →
  (0 < decrease_rate ea <= 1)%R →
  ∃ k : nat,
    (EvalAdjustingSchedule history ea σ).1
    = Ok (learning_rate default_names
            (with_constant (ea_constant ea / decrease_rate ea ^ k)%R
               MultifactorDefaults)) ∧
    (ea_constant ea <= ea_constant ea / decrease_rate ea ^ k)%R.
Proof.
  intros Hc Hr.
  exists (decreases_of ea
            (History_series history (history_mode ea) (metric ea) σ)).
  rewrite EvalAdjustingSchedule_decreases. cbn zeta.
  rewrite rate_nonzero by lra. cbn [andb]. rewrite decreased_pow.
  split; [done |]. by apply divided_grows.
Qed.

End RealProperties.

(** ** Binary64 *)

Section FloatProperties.
Import Binary64.
Implicit Types (ea : EvalAdjustingArgs (num := spec_float)).

(** X21: in binary64 a comparison with not-a-number is false, so a turn
    of the loop whose reference value or whose older value is not-a-number
    counts as an improvement: it moves the reference value to the older
    value, resets the counter and leaves the constant as it is (for a
    positive [steps_to_decrease]). *)
Theorem X21_nan_counts_as_improvement ea (prev : spec_float)
    (st : walk_state) (σ : heap spec_float) :
  1 ≤ steps_to_decrease ea →
  cur st = S754_nan ∨ prev = S754_nan →
  loop_body ea prev st σ
  = (Ok {| cur := prev; steps_without_improvement := 0;
           adjusted := adjusted st |}, σ).
Proof.
  intros Hstd Hnan.
  assert (stalled ea (cur st) prev = false) as Hno.
  { unfold stalled. destruct Hnan as [-> | ->].
    - apply SFltb_nan_l.
    - change (py_mul S754_nan ?y) with (SFmul prec emax S754_nan y).
      rewrite SFmul_nan_l. apply (SFltb_nan_r (cur st)). }
  destruct (loop_step_improved ea prev st Hstd Hno) as [Hdec Hstep].
  by rewrite loop_body_spec, Hdec, Hstep.
Qed.

End FloatProperties.

(** ** The further properties at concrete inputs *)

Section MoreWitnesses.
Import RealModel Binary64.

Lemma X1_witness :
  "linear_warmup" ∈ parse_factors default_factors ∧
  count_char "*" "linear_warmup" = 0%nat ∧
  starts_with_space "linear_warmup" = false ∧
  ends_with_space "linear_warmup" = false.
Proof.
  assert ("linear_warmup" ∈ parse_factors default_factors) as Hin.
  { change (parse_factors default_factors)
      with ["constant"; "linear_warmup"; "rsqrt_decay"].
    in_list. }
  split; [exact Hin |].
  exact (proj2 (X1_parsed_tokens default_factors) "linear_warmup" Hin).
Defined.

Lemma X2_witness :
  ["constant"; "decay_every"] ≠ [] ∧
  Forall (λ t, count_char "*" t = 0%nat) ["constant"; "decay_every"] ∧
  PyStr.split "*" (join "*" ["constant"; "decay_every"])
  = ["constant"; "decay_every"].
Proof.
  assert (["constant"; "decay_every"] ≠ ([] : list string)) as Hne
    by discriminate.
  assert (Forall (λ t, count_char "*" t = 0%nat) ["constant"; "decay_every"])
    as Hfree by (repeat constructor).
  split; [exact Hne |]. split; [exact Hfree |].
  exact (proj2 (X2_split_join_round_trip "*") _ Hne Hfree).
Defined.

Lemma X3_witness :
  all_space " " = true ∧
  ["constant"; "linear_warmup"] ≠ [] ∧
  Forall (λ t, count_char "*" t = 0%nat) ["constant"; "linear_warmup"] ∧
  parse_factors
    (join "*" ((λ t, " " +:+ t +:+ " ") <$> ["constant"; "linear_warmup"]))
  = PyStr.strip <$> ["constant"; "linear_warmup"].
Proof.
  assert (all_space " " = true) as Hsp by reflexivity.
  assert (["constant"; "linear_warmup"] ≠ ([] : list string)) as Hne
    by discriminate.
  assert (Forall (λ t, count_char "*" t = 0%nat) ["constant"; "linear_warmup"])
    as Hfree by (repeat constructor).
  split; [exact Hsp |]. split; [exact Hne |]. split; [exact Hfree |].
  exact (proj1 (X3_whitespace_insignificant " " " " _ Hsp Hsp Hne Hfree)).
Defined.

Lemma X4_witness :
  all_space (factors (with_factors (num := R) "  " MultifactorDefaults)) = true ∧
  ∃ sched,
    MultifactorSchedule None (with_factors (num := R) "  " MultifactorDefaults) ∅
    = (Ok sched, ∅) ∧
    ∀ step σ', sched step σ' = (Raise (unknown_factor ""), σ').
Proof.
  assert (all_space (factors (with_factors (num := R) "  " MultifactorDefaults))
          = true) as Hblank by reflexivity.
  split; [exact Hblank |].
  exact (proj2 (X4_blank_formula_raises None _ ∅ Hblank)).
Defined.


Lemma X6_witness :
  Z.of_nat (length (History_series (one_series "eval" "metrics/accuracy")
                      "eval" "metrics/accuracy" (one_series_heap two_points)))
  - 2 < 20 ∧
  (EvalAdjustingSchedule (one_series "eval" "metrics/accuracy")
     EvalAdjustingDefaults (one_series_heap two_points)).1
  = Ok (learning_rate default_names
          (with_constant (ea_constant EvalAdjustingDefaults)
             MultifactorDefaults)).
Proof.
  assert (Z.of_nat (length (History_series (one_series "eval" "metrics/accuracy")
                              "eval" "metrics/accuracy"
                              (one_series_heap two_points))) - 2 < 20)
    as Hfew by (rewrite one_series_series; simpl; lia).
  split; [exact Hfew |].
  destruct (X6_decreases_need_points (one_series "eval" "metrics/accuracy")
              (EvalAdjustingDefaults (num := R)) (one_series_heap two_points))
    as (k & _ & _ & Hun).
  exact (Hun Hfew).
Defined.

Lemma X7_witness :
  steps_to_decrease eager_args ≤ 0 ∧
  (EvalAdjustingSchedule (Backend0 := backend unmodelled)
     (one_series "eval" "metrics/accuracy") eager_args three_stalled).1
  = Ok (learning_rate (Backend0 := backend unmodelled) default_names
          (with_constant half MultifactorDefaults)).
Proof.
  assert (steps_to_decrease eager_args ≤ 0) as Hstd by (simpl; lia).
  split; [exact Hstd |].
  rewrite (X7_nonpositive_bound_decreases_each_turn
             (Backend0 := backend unmodelled)
             (one_series "eval" "metrics/accuracy") eager_args three_stalled Hstd).
  reflexivity.
Defined.

Lemma X8_witness :
  improving (stalled_args "eval" "metrics/accuracy") (dec 7 1)
    (rev (snd <$> [(200, dec 6 1)])) = true ∧
  (EvalAdjustingSchedule (Backend0 := backend unmodelled)
     (one_series "eval" "metrics/accuracy")
     (stalled_args "eval" "metrics/accuracy") three_improving).1
  = Ok (learning_rate (Backend0 := backend unmodelled) default_names
          (with_constant one MultifactorDefaults)).
Proof.
  assert (improving (stalled_args "eval" "metrics/accuracy") (dec 7 1)
            (rev (snd <$> [(200, dec 6 1)])) = true) as Himp
    by (vm_compute; reflexivity).
  assert (1 ≤ steps_to_decrease (stalled_args "eval" "metrics/accuracy"))
    as Hstd by (simpl; lia).
  split; [exact Himp |].
  exact (X8_improving_series_unadjusted (Backend0 := backend unmodelled)
           (one_series "eval" "metrics/accuracy")
           (stalled_args "eval" "metrics/accuracy") three_improving
           (100, dec 5 1) [(200, dec 6 1)] (300, dec 7 1)
           (one_series_series "eval" "metrics/accuracy" _) Hstd Himp).
Defined.

Lemma X9_witness :
  Forall (λ p : point spec_float, snd p = half)
    (History_series (one_series "eval" "metrics/accuracy")
       "eval" "metrics/accuracy" four_stalled) ∧
  (EvalAdjustingSchedule (Backend0 := backend unmodelled)
     (one_series "eval" "metrics/accuracy")
     (stalled_args "eval" "metrics/accuracy") four_stalled).1
  = Ok (learning_rate (Backend0 := backend unmodelled) default_names
          (with_constant half MultifactorDefaults)).
Proof.
  assert (Forall (λ p : point spec_float, snd p = half)
            (History_series (one_series "eval" "metrics/accuracy")
               "eval" "metrics/accuracy" four_stalled)) as Hall
    by (unfold four_stalled; rewrite one_series_series; repeat constructor).
  assert (1 ≤ steps_to_decrease (stalled_args "eval" "metrics/accuracy"))
    as Hstd by (simpl; lia).
  split; [exact Hall |].
  rewrite (X9_constant_series (Backend0 := backend unmodelled)
             (one_series "eval" "metrics/accuracy")
             (stalled_args "eval" "metrics/accuracy") four_stalled half
             Hstd Hall).
  reflexivity.
Defined.

Lemma X10_witness :
  snd <$> History_series (one_series "eval" "metrics/accuracy")
            "eval" "metrics/accuracy" four_stalled
  = snd <$> History_series (one_series "eval" "metrics/accuracy")
              "eval" "metrics/accuracy" four_stalled_later ∧
  (EvalAdjustingSchedule (Backend0 := backend unmodelled)
     (one_series "eval" "metrics/accuracy")
     (stalled_args "eval" "metrics/accuracy") four_stalled).1
  = (EvalAdjustingSchedule (Backend0 := backend unmodelled)
       (one_series "eval" "metrics/accuracy")
       (stalled_args "eval" "metrics/accuracy") four_stalled_later).1.
Proof.
  assert (snd <$> History_series (one_series "eval" "metrics/accuracy")
                    "eval" "metrics/accuracy" four_stalled
          = snd <$> History_series (one_series "eval" "metrics/accuracy")
                      "eval" "metrics/accuracy" four_stalled_later) as Hvalues
    by (unfold four_stalled, four_stalled_later;
        rewrite !one_series_series; reflexivity).
  split; [exact Hvalues |].
  exact (X10_step_numbers_ignored (Backend0 := backend unmodelled)
           (one_series "eval" "metrics/accuracy")
           (one_series "eval" "metrics/accuracy")
           (stalled_args "eval" "metrics/accuracy")
           four_stalled four_stalled_later Hvalues).
Defined.

Lemma X11_witness :
  EvalAdjustingSchedule (Backend0 := backend unmodelled)
    (one_series "eval" "metrics/accuracy") zero_rate_args three_stalled
  = (Raise ZeroDivisionError, <[2%positive := [(100, half)]]> three_stalled) ∧
  py_is_zero (decrease_rate zero_rate_args) = true ∧
  (3 ≤ length (History_series (one_series "eval" "metrics/accuracy")
                 (history_mode zero_rate_args) (metric zero_rate_args)
                 three_stalled))%nat.
Proof.
  assert (EvalAdjustingSchedule (Backend0 := backend unmodelled)
            (one_series "eval" "metrics/accuracy") zero_rate_args three_stalled
          = (Raise ZeroDivisionError,
             <[2%positive := [(100, half)]]> three_stalled)) as Hrun
    by (vm_compute; reflexivity).
  split; [exact Hrun |].
  exact (proj2 (X11_only_zero_division_raised (Backend0 := backend unmodelled)
                  _ _ _ _ _ Hrun)).
Defined.

Lemma X12_witness :
  Forall (λ t : string, t ∈ known_factors) ["constant"] ∧
  Forall (λ t : string, t ∈ known_factors) ["linear_warmup"] ∧
  ∃ u v : R,
    learning_rate ["constant"] MultifactorDefaults 200%R ∅
    = (Ok {[ "learning_rate" := u ]}, ∅) ∧
    learning_rate ["linear_warmup"] MultifactorDefaults 200%R ∅
    = (Ok {[ "learning_rate" := v ]}, ∅) ∧
    learning_rate (["constant"] ++ ["linear_warmup"]) MultifactorDefaults
      200%R ∅
    = (Ok {[ "learning_rate" := (u * v)%R ]}, ∅).
Proof.
  assert (Forall (λ t : string, t ∈ known_factors) ["constant"]) as Hxs
    by (repeat constructor; unfold known_factors; in_list).
  assert (Forall (λ t : string, t ∈ known_factors) ["linear_warmup"]) as Hys
    by (repeat constructor; unfold known_factors; in_list).
  split; [exact Hxs |]. split; [exact Hys |].
  exact (X12_formula_concatenation MultifactorDefaults _ _ 200%R ∅ Hxs Hys).
Defined.

Lemma X13_witness :
  ["constant"; "rsqrt_decay"] ≡ₚ ["rsqrt_decay"; "constant"] ∧
  Forall (λ t : string, t ∈ known_factors) ["constant"; "rsqrt_decay"] ∧
  learning_rate ["constant"; "rsqrt_decay"] (MultifactorDefaults (num := R))
    900%R ∅
  = learning_rate ["rsqrt_decay"; "constant"] MultifactorDefaults 900%R ∅.
Proof.
  assert (["constant"; "rsqrt_decay"] ≡ₚ ["rsqrt_decay"; "constant"]) as Hperm
    by apply perm_swap.
  assert (Forall (λ t : string, t ∈ known_factors) ["constant"; "rsqrt_decay"])
    as Hall by (repeat constructor; unfold known_factors; in_list).
  split; [exact Hperm |]. split; [exact Hall |].
  exact (X13_factor_order_irrelevant MultifactorDefaults _ _ 900%R ∅ Hperm Hall).
Defined.

Lemma X14_witness :
  parse_factors (factors (with_factors (num := R) "rsqrt_decay"
                            MultifactorDefaults)) = ["rsqrt_decay"] ∧
  (0 < warmup_steps (with_factors (num := R) "rsqrt_decay"
                       MultifactorDefaults))%R ∧
  ∃ sched,
    MultifactorSchedule None
      (with_factors (num := R) "rsqrt_decay" MultifactorDefaults) ∅
    = (Ok sched, ∅) ∧
    sched 900%R ∅ = (Ok {[ "learning_rate" := (1 / sqrt 900)%R ]}, ∅).
Proof.
  assert (parse_factors (factors (with_factors (num := R) "rsqrt_decay"
                                    MultifactorDefaults)) = ["rsqrt_decay"])
    as Hparse by reflexivity.
  assert (0 < warmup_steps (with_factors (num := R) "rsqrt_decay"
                              MultifactorDefaults))%R as Hw by (simpl; lra).
  split; [exact Hparse |]. split; [exact Hw |].
  destruct (X14_rsqrt_decay_schedule None _ ∅ Hparse Hw) as (sched & Hs & Hv).
  exists sched. split; [exact Hs |].
  apply (proj2 (Hv 900%R ∅)). simpl. lra.
Defined.

Lemma X15_witness :
  parse_factors (factors (with_factors (num := R) "rsqrt_normalized_decay"
                            MultifactorDefaults))
  = ["rsqrt_normalized_decay"] ∧
  (0 < warmup_steps (with_factors (num := R) "rsqrt_normalized_decay"
                       MultifactorDefaults))%R ∧
  ∃ (sched : Schedule) (value : R → R),
    MultifactorSchedule None
      (with_factors (num := R) "rsqrt_normalized_decay" MultifactorDefaults) ∅
    = (Ok sched, ∅) ∧
    sched 400%R ∅ = (Ok {[ "learning_rate" := value 400%R ]}, ∅) ∧
    value 400%R = 1%R.
Proof.
  assert (parse_factors (factors (with_factors (num := R)
                                    "rsqrt_normalized_decay"
                                    MultifactorDefaults))
          = ["rsqrt_normalized_decay"]) as Hparse by reflexivity.
  assert (0 < warmup_steps (with_factors (num := R) "rsqrt_normalized_decay"
                              MultifactorDefaults))%R as Hw by (simpl; lra).
  split; [exact Hparse |]. split; [exact Hw |].
  destruct (X15_rsqrt_normalized_decay_schedule None _ ∅ Hparse Hw)
    as (sched & value & Hs & Hv & Hflat & _).
  exists sched, value. split; [exact Hs |]. split; [apply Hv |].
  apply Hflat. simpl. lra.
Defined.

Lemma X16_witness :
  parse_factors (factors (with_factors (num := R) "decay_every"
                            MultifactorDefaults)) = ["decay_every"] ∧
  (0 < steps_per_decay (with_factors (num := R) "decay_every"
                          MultifactorDefaults))%R ∧
  ∃ sched,
    MultifactorSchedule None
      (with_factors (num := R) "decay_every" MultifactorDefaults) ∅
    = (Ok sched, ∅) ∧
    sched 50000%R ∅
    = (Ok {[ "learning_rate" :=
               (decay_factor (MultifactorDefaults (num := R)) ^ 2)%R ]}, ∅).
Proof.
  assert (parse_factors (factors (with_factors (num := R) "decay_every"
                                    MultifactorDefaults)) = ["decay_every"])
    as Hparse by reflexivity.
  assert (0 < steps_per_decay (with_factors (num := R) "decay_every"
                                 MultifactorDefaults))%R as Hs by (simpl; lra).
  split; [exact Hparse |]. split; [exact Hs |].
  destruct (X16_decay_every_schedule None _ ∅ Hparse Hs) as (sched & Hsched & Hv).
  exists sched. split; [exact Hsched |].
  apply (Hv 2%nat 50000%R ∅). simpl. lra.
Defined.

Lemma X17_witness :
  parse_factors (factors cosine_args) = ["cosine_decay"] ∧
  (0 < steps_per_cycle cosine_args)%R ∧
  ∃ (sched : Schedule) (value : R → R),
    MultifactorSchedule None cosine_args ∅ = (Ok sched, ∅) ∧
    sched 25000%R ∅ = (Ok {[ "learning_rate" := value 25000%R ]}, ∅) ∧
    value (25000 + steps_per_cycle cosine_args)%R = value 25000%R.
Proof.
  assert (parse_factors (factors cosine_args) = ["cosine_decay"]) as Hparse
    by reflexivity.
  assert (0 < steps_per_cycle cosine_args)%R as Hc by (simpl; lra).
  split; [exact Hparse |]. split; [exact Hc |].
  destruct (X17_cosine_decay_cycles None cosine_args ∅ Hparse Hc)
    as (sched & value & Hs & Hv & _ & _ & _ & Hperiod).
  exists sched, value. split; [exact Hs |]. split; [apply Hv |].
  apply Hperiod. simpl. lra.
Defined.

Lemma X18_witness :
  parse_factors (factors (MultifactorDefaults (num := R))) = default_names ∧
  (0 < warmup_steps (MultifactorDefaults (num := R)))%R ∧
  ∃ (sched : Schedule) (value : R → R),
    MultifactorSchedule None (MultifactorDefaults (num := R)) ∅ = (Ok sched, ∅) ∧
    sched 1600%R ∅ = (Ok {[ "learning_rate" := value 1600%R ]}, ∅) ∧
    value 1600%R
    = (constant (MultifactorDefaults (num := R)) / sqrt 1600)%R.
Proof.
  assert (parse_factors (factors (MultifactorDefaults (num := R)))
          = default_names) as Hparse
    by (unfold default_names; simpl factors; reflexivity).
  assert (0 < warmup_steps (MultifactorDefaults (num := R)))%R as Hw
    by (simpl; lra).
  split; [exact Hparse |]. split; [exact Hw |].
  destruct (X18_default_schedule_shape None MultifactorDefaults ∅ Hparse Hw)
    as (sched & value & Hs & Hv & _ & Hdown & _).
  exists sched, value. split; [exact Hs |]. split; [apply Hv |].
  apply Hdown. simpl. lra.
Defined.


Lemma X20_witness :
  (0 < ea_constant doubling_args)%R ∧
  (0 < decrease_rate doubling_args <= 1)%R ∧
  ∃ k : nat,
    (EvalAdjustingSchedule (one_series "eval" "metrics/accuracy")
       doubling_args (one_series_heap three_ties)).1
    = Ok (learning_rate default_names
            (with_constant
               (ea_constant doubling_args / decrease_rate doubling_args ^ k)%R
               MultifactorDefaults)) ∧
    (ea_constant doubling_args
     <= ea_constant doubling_args / decrease_rate doubling_args ^ k)%R.
Proof.
  assert (0 < ea_constant doubling_args)%R as Hc by (simpl; lra).
  assert (0 < decrease_rate doubling_args <= 1)%R as Hr by (simpl; lra).
  split; [exact Hc |]. split; [exact Hr |].
  exact (X20_small_rate_raises_constant (one_series "eval" "metrics/accuracy")
           doubling_args (one_series_heap three_ties) Hc Hr).
Defined.

Lemma X21_witness :
  1 ≤ steps_to_decrease (stalled_args "eval" "metrics/accuracy") ∧
  loop_body (stalled_args "eval" "metrics/accuracy") half
    {| cur := S754_nan; steps_without_improvement := 1; adjusted := one |} ∅
  = (Ok {| cur := half; steps_without_improvement := 0; adjusted := one |}, ∅).
Proof.
  assert (1 ≤ steps_to_decrease (stalled_args "eval" "metrics/accuracy"))
    as Hstd by (simpl; lia).
  split; [exact Hstd |].
  exact (X21_nan_counts_as_improvement (stalled_args "eval" "metrics/accuracy")
           half
           {| cur := S754_nan; steps_without_improvement := 1; adjusted := one |}
           ∅ Hstd (or_introl eq_refl)).
Defined.

End MoreWitnesses.
